(** * Identifier-tree builder of react-jsonschema-form ([toIdSchema.ts])

    A shallow embedding of [packages/utils/src/schema/toIdSchema.ts] and the
    properties of the identifier tree it builds.

    The builder is untyped JavaScript at run time: schemas and form data are
    parsed JSON documents.  They are modelled by [value]; an object is the
    list of its properties as the document declares them (the first
    declaration of a name is the one that counts), an array the list of its
    elements.  JavaScript keeps the own properties of an object in an order
    of its own: the names that are array indices first, in ascending order,
    then the other names in the order they were created; [setField] creates
    properties in that order and [forInKeys] enumerates them in it.  Members
    inherited from the built-in prototypes are outside the model.

    The builder re-enters itself on retrieved nodes, which are not parts of
    the schema it was given, so the embedding takes a recursion budget: a
    call returns, throws, or is cut off by the budget, and a result, once
    returned, is the same under every larger budget. *)

From Stdlib Require Import String Ascii List ZArith Bool Arith Lia DecimalString Permutation.
From Stdlib Require DecimalNat.
Import ListNotations.
Open Scope string_scope.

(** ** Run-time values *)

Module Js.

#[local] Unset Elimination Schemes.

Inductive value : Type :=
| VUndefined
| VNull
| VBool (b : bool)
| VNum (n : Z)
| VStr (s : string)
| VArr (elems : list value)
| VObj (fields : list (string * value)).

#[local] Set Elimination Schemes.

(** Decimal rendering of an array or string index, as a property name. *)
Definition indexName (i : nat) : string := NilZero.string_of_uint (Nat.to_uint i).

(** The index named by [k] among the first [n] indices, if any. *)
Definition indexOf (n : nat) (k : string) : option nat :=
  find (fun i => String.eqb (indexName i) k) (seq 0 n).

(** Lookup of an own property in a list of properties. *)
Fixpoint lookup {A : Type} (k : string) (fs : list (string * A)) : option A :=
  match fs with
  | [] => None
  | (k', v) :: rest => if String.eqb k' k then Some v else lookup k rest
  end.

Fixpoint chars (s : string) : list value :=
  match s with
  | EmptyString => []
  | String c rest => VStr (String c EmptyString) :: chars rest
  end.

(** [typeof v === 'object'] : true of objects, arrays and [null]. *)
Definition typeofObject (v : value) : bool :=
  match v with
  | VNull | VArr _ | VObj _ => true
  | _ => false
  end.

(** Truthiness, as tested by [!x] and [x || y]. *)
Definition truthy (v : value) : bool :=
  match v with
  | VUndefined | VNull => false
  | VBool b => b
  | VNum n => negb (Z.eqb n 0)
  | VStr s => negb (String.eqb s "")
  | VArr _ | VObj _ => true
  end.

(** [k in v] for an object or array [v] (own properties only). *)
Definition hasKey (k : string) (v : value) : bool :=
  match v with
  | VObj fs => match lookup k fs with Some _ => true | None => false end
  | VArr l =>
      String.eqb k "length" || match indexOf (length l) k with Some _ => true | None => false end
  | _ => false
  end.

(** [v[k]], reading an own property; [undefined] when there is none.  On
    [null] and [undefined] this is the null-safe step of lodash [get].  A
    member inherited from a built-in prototype ([constructor], [toString],
    the methods of strings and arrays) is outside the model and is not
    found. *)
Definition getProp (v : value) (k : string) : value :=
  match v with
  | VObj fs => match lookup k fs with Some x => x | None => VUndefined end
  | VArr l =>
      if String.eqb k "length" then VNum (Z.of_nat (length l))
      else match indexOf (length l) k with
           | Some i => nth i l VUndefined
           | None => VUndefined
           end
  | VStr s =>
      if String.eqb k "length" then VNum (Z.of_nat (String.length s))
      else match indexOf (String.length s) k with
           | Some i => nth i (chars s) VUndefined
           | None => VUndefined
           end
  | _ => VUndefined
  end.

(** lodash [get(object, path)] with an array path. *)
Definition get (v : value) (path : list string) : value :=
  fold_left getProp path v.

(** ** Own properties and their order *)

(** The array index a property name stands for: a decimal numeral without
    leading zeros whose value is below [2^32 - 1]. *)
Definition arrayIndex (k : string) : option N :=
  match NilZero.uint_of_string k with
  | Some d =>
      let n := N.of_uint d in
      if String.eqb (NilZero.string_of_uint (N.to_uint n)) k && N.ltb n 4294967295
      then Some n
      else None
  | None => None
  end.

(** A new property whose name is the array index [n] takes its place among
    the array indices, before the first name that is a larger index or no
    index at all. *)
Fixpoint insertIndex {A : Type} (n : N) (entry : string * A) (fs : list (string * A))
    : list (string * A) :=
  match fs with
  | [] => [entry]
  | (k', x) :: rest =>
      match arrayIndex k' with
      | Some m => if N.ltb n m then entry :: fs else (k', x) :: insertIndex n entry rest
      | None => entry :: fs
      end
  end.

(** The value of the property [k], which is there, becomes [v]. *)
Fixpoint replace {A : Type} (k : string) (v : A) (fs : list (string * A))
    : list (string * A) :=
  match fs with
  | [] => []
  | (k', x) :: rest =>
      if String.eqb k' k then (k', v) :: rest else (k', x) :: replace k v rest
  end.

(** A new own property: its place is among the array indices when its name
    is one, and after all the others otherwise. *)
Definition addField {A : Type} (k : string) (v : A) (fs : list (string * A))
    : list (string * A) :=
  match arrayIndex k with
  | Some n => insertIndex n (k, v) fs
  | None => (fs ++ [(k, v)])%list
  end.

(** [o[k] = v] on the own properties of a plain object, kept in the order
    in which JavaScript enumerates them: an existing property keeps its
    place, a new one is added. *)
Definition setField {A : Type} (k : string) (v : A) (fs : list (string * A))
    : list (string * A) :=
  match lookup k fs with
  | Some _ => replace k v fs
  | None => addField k v fs
  end.

(** The own properties of the object a list of declarations stands for, in
    the order in which JavaScript enumerates them. *)
Definition ownProperties {A : Type} (declared : list (string * A)) : list (string * A) :=
  fold_left (fun fs kv => match lookup (fst kv) fs with
                          | Some _ => fs
                          | None => addField (fst kv) (snd kv) fs
                          end) declared [].

(** The names a [for (const name in v)] loop visits. *)
Definition forInKeys (v : value) : list string :=
  match v with
  | VObj fs => map fst (ownProperties fs)
  | VArr l => map indexName (seq 0 (length l))
  | VStr s => map indexName (seq 0 (String.length s))
  | _ => []
  end.

End Js.
Export Js.

(** ** Collaborators that are imported by the builder *)

(** Modelled from the spec: the keyword names of [../constants] ([$ref],
    [allOf], [dependencies], [items], [properties], and the [$id] carried by
    every identifier node). *)
Definition ALL_OF_KEY : string := "allOf".
Definition DEPENDENCIES_KEY : string := "dependencies".
Definition ID_KEY : string := "$id".
Definition ITEMS_KEY : string := "items".
Definition PROPERTIES_KEY : string := "properties".
Definition REF_KEY : string := "$ref".

(** Position by position comparison of two lists. *)
Fixpoint all2 {A B : Type} (same : A -> B -> bool) (la : list A) (lb : list B) : bool :=
  match la, lb with
  | [], [] => true
  | x :: la', y :: lb' => same x y && all2 same la' lb'
  | _, _ => false
  end.

(** Modelled from the spec: the structural equality comparer [../deepEquals]
    (deep; arrays are compared position by position, objects property by
    property whatever the order of their keys). *)
Fixpoint deepEquals (a b : value) {struct a} : bool :=
  match a, b with
  | VUndefined, VUndefined => true
  | VNull, VNull => true
  | VBool x, VBool y => Bool.eqb x y
  | VNum x, VNum y => Z.eqb x y
  | VStr x, VStr y => String.eqb x y
  | VArr la, VArr lb => all2 deepEquals la lb
  | VObj fa, VObj fb =>
      Nat.eqb (length fa) (length fb) &&
      forallb (fun kx =>
                 existsb (fun ky => String.eqb (fst ky) (fst kx)
                                    && deepEquals (snd kx) (snd ky)) fb) fa
  | _, _ => false
  end.

(** ** Errors *)

Inductive thrown : Type :=
| TypeError (msg : string)
| Error (msg : string).

(** ** Identifier trees *)

(** An [IdSchema] is an object whose [$id] member is a string and whose other
    members are [IdSchema]s again; [idv] is what a member can hold.  The
    members of an object are its own properties, in the order in which
    JavaScript enumerates them, and, under the name [__proto__], the
    prototype it was given by an assignment to [__proto__]: that name is the
    accessor of [Object.prototype], so the assignment of an object replaces
    the prototype and creates no own property, and reading it gives the
    prototype back.  An object without that member has the prototype every
    object literal has. *)
#[local] Unset Elimination Schemes.

Inductive idv : Type :=
| IdStr (s : string)
| IdObj (fields : list (string * idv)).

#[local] Set Elimination Schemes.

(** [idSchema[k] = v] for an object [v].  For every name but [__proto__]
    the assignment creates or updates the own property [k].  The assignment
    to [__proto__] replaces the prototype of [idSchema] by [v] and creates no
    own property: the list records the prototype under that name, at the end
    like any name that is no array index. *)
Definition assign (fs : list (string * idv)) (k : string) (v : idv) : list (string * idv) :=
  setField k v fs.

(** The names [Object.keys] lists: the own properties. *)
Definition ownKeys (fs : list (string * idv)) : list string :=
  filter (fun k => negb (String.eqb k "__proto__")) (map fst fs).

(** Reading [t[k]] finds a member of an identifier node: an own property, or
    a property of a prototype the node was given. *)
Fixpoint hasMember (k : string) (t : idv) {struct t} : bool :=
  match t with
  | IdStr _ => false
  | IdObj fs =>
      existsb (fun kv => String.eqb (fst kv) k
                         || (String.eqb (fst kv) "__proto__" && hasMember k (snd kv))) fs
  end.

(** The string that [x + ...] concatenates for a member [x] of an identifier
    node.  An object is converted by its [valueOf], which for these objects
    never gives a primitive, and then by its [toString]: the one of
    [Object.prototype] gives ["[object Object]"], but a member named
    [toString] hides it, and as a member is an object and cannot be called,
    the conversion throws. *)
Definition toStringId (x : option idv) : thrown + string :=
  match x with
  | Some (IdStr s) => inr s
  | Some (IdObj fs) =>
      if hasMember "toString" (IdObj fs)
      then inl (TypeError "Cannot convert object to primitive value")
      else inr "[object Object]"
  | None => inr "undefined"
  end.

(** ** Outcomes *)

(** A call returns, throws, or is cut off when the recursion budget of the
    model is used up. *)
Inductive outcome (A : Type) : Type :=
| Done (a : A)
| Throws (e : thrown)
| OutOfFuel.

Arguments Done {A} a.
Arguments Throws {A} e.
Arguments OutOfFuel {A}.

Definition bind {A B : Type} (m : outcome A) (k : A -> outcome B) : outcome B :=
  match m with
  | Done a => k a
  | Throws e => Throws e
  | OutOfFuel => OutOfFuel
  end.

Notation "x <- m ;; k" := (bind m (fun x => k))
  (at level 61, m at next level, right associativity).

(** [id || idPrefix]: an absent ([undefined], [null]) or empty [id] is falsy. *)
Definition orPrefix (id : option string) (idPrefix : string) : string :=
  match id with
  | Some s => if String.eqb s "" then idPrefix else s
  | None => idPrefix
  end.

(** [list.concat(v)]: a copy of the list with [v] added at the end, or with
    the elements of [v] when [v] is itself an array. *)
Definition concat (l : list value) (v : value) : list value :=
  match v with
  | VArr elems => (l ++ elems)%list
  | _ => (l ++ [v])%list
  end.

(** ** The builder *)

Section Builder.

(** The validator is only handed on to [retrieveSchema]. *)
Variable Validator : Type.

(** [Experimental_CustomMergeAllOf<S>]: a caller-supplied merge of [allOf]. *)
Definition MergeAllOf : Type := value -> value.

(** [./retrieveSchema] and [../getSchemaType] are imported by the builder
    from elsewhere in the package; the builder is verified for every resolver
    and every classifier.  A resolver returns the retrieved node or throws. *)
Variable retrieveSchema :
  Validator -> value -> value -> value -> option MergeAllOf -> thrown + value.
Variable getSchemaType : value -> value.

(** Lines 45-48: the node to re-enter with, when the schema carries a
    reference, dependency or [allOf] keyword and the retrieved node is not
    yet in the recursion list ([findIndex] gives [-1]). *)
Definition retrieved (validator : Validator) (schema rootSchema formData : value)
    (_recurseList : list value) (merge : option MergeAllOf) : thrown + option value :=
  if hasKey REF_KEY schema || hasKey DEPENDENCIES_KEY schema || hasKey ALL_OF_KEY schema then
    match retrieveSchema validator schema rootSchema formData merge with
    | inl e => inl e
    | inr _schema =>
        if existsb (fun item => deepEquals item _schema) _recurseList
        then inr None
        else inr (Some _schema)
    end
  else inr None.

(** Line 62. *)
Definition delegatesToItems (schema : value) : bool :=
  hasKey ITEMS_KEY schema && negb (truthy (get schema [ITEMS_KEY; REF_KEY])).

(** Line 75. *)
Definition isObjectWithProperties (schema : value) : bool :=
  match getSchemaType schema with
  | VStr t => String.eqb t "object"
  | _ => false
  end && hasKey PROPERTIES_KEY schema.

(** Lines 76-92: the loop over the declared properties; [self] is the
    recursive call with the arguments that do not change filled in. *)
Fixpoint forProperties (self : value -> option string -> value -> outcome idv)
    (schema : value) (idSeparator : string) (formData : value)
    (names : list string) (idSchema : list (string * idv)) : outcome (list (string * idv)) :=
  match names with
  | [] => Done idSchema
  | name :: rest =>
      let field := getProp (getProp schema PROPERTIES_KEY) name in
      match toStringId (lookup ID_KEY idSchema) with
      | inl e => Throws e
      | inr current =>
          let fieldId := current ++ idSeparator ++ name in
          child <- self field (Some fieldId) (get formData [name]) ;;
          forProperties self schema idSeparator formData rest (assign idSchema name child)
      end
  end.

(** Lines 62-95: what the builder does with the node as it stands, once
    the retrieval of lines 45-61 has not returned. *)
Definition nodeAsIs (self : value -> option string -> value -> outcome idv)
    (schema : value) (idSeparator : string) (id : option string) (formData : value)
    (idSchema : list (string * idv)) : outcome idv :=
  if delegatesToItems schema then
    self (get schema [ITEMS_KEY]) id formData
  else if isObjectWithProperties schema then
    fields <- forProperties self schema idSeparator formData
                (forInKeys (getProp schema PROPERTIES_KEY)) idSchema ;;
    Done (IdObj fields)
  else Done (IdObj idSchema).

Fixpoint toIdSchemaInternal (fuel : nat) (validator : Validator) (schema : value)
    (idPrefix idSeparator : string) (id : option string) (rootSchema formData : value)
    (_recurseList : list value) (merge : option MergeAllOf) {struct fuel} : outcome idv :=
  match fuel with
  | O => OutOfFuel
  | S fuel' =>
      let _id := orPrefix id idPrefix in
      let idSchema := [(ID_KEY, IdStr _id)] in
      if typeofObject schema then
        match schema with
        | VNull => Throws (TypeError "Cannot use 'in' operator to search for '$ref' in null")
        | _ =>
            match retrieved validator schema rootSchema formData _recurseList merge with
            | inl e => Throws e
            | inr (Some _schema) =>
                toIdSchemaInternal fuel' validator _schema idPrefix idSeparator id
                  rootSchema formData (concat _recurseList _schema) merge
            | inr None =>
                nodeAsIs
                  (fun field fieldId data =>
                     toIdSchemaInternal fuel' validator field idPrefix idSeparator
                       fieldId rootSchema data _recurseList merge)
                  schema idSeparator id formData idSchema
            end
        end
      else Done (IdObj idSchema)
  end.

(** The exported entry point; an omitted [idPrefix] or [idSeparator] is
    [None], and the recursion list starts empty. *)
Definition toIdSchema (fuel : nat) (validator : Validator) (schema : value)
    (id : option string) (rootSchema formData : value)
    (idPrefix idSeparator : option string) (merge : option MergeAllOf) : outcome idv :=
  toIdSchemaInternal fuel validator schema
    (match idPrefix with Some p => p | None => "root" end)
    (match idSeparator with Some p => p | None => "_" end)
    id rootSchema formData [] merge.

(** Lines 44-74 on their own: the node, and the recursion list, the builder
    is at once reference and [items] handling is over. *)
Fixpoint lands (fuel : nat) (validator : Validator) (schema rootSchema formData : value)
    (_recurseList : list value) (merge : option MergeAllOf) {struct fuel}
    : outcome (value * list value) :=
  match fuel with
  | O => OutOfFuel
  | S fuel' =>
      if typeofObject schema then
        match schema with
        | VNull => Throws (TypeError "Cannot use 'in' operator to search for '$ref' in null")
        | _ =>
            match retrieved validator schema rootSchema formData _recurseList merge with
            | inl e => Throws e
            | inr (Some _schema) =>
                lands fuel' validator _schema rootSchema formData
                  (concat _recurseList _schema) merge
            | inr None =>
                if delegatesToItems schema then
                  lands fuel' validator (get schema [ITEMS_KEY]) rootSchema formData
                    _recurseList merge
                else Done (schema, _recurseList)
            end
        end
      else Done (schema, _recurseList)
  end.

End Builder.

Arguments retrieved {Validator}.
Arguments toIdSchemaInternal {Validator}.
Arguments toIdSchema {Validator}.
Arguments lands {Validator}.

(** ** Notions the properties are stated with *)

(** The node that carries nothing but its own identifier. *)
Definition single (id : option string) (idPrefix : string) : list (string * idv) :=
  [(ID_KEY, IdStr (orPrefix id idPrefix))].

(** Every identifier string held in a tree, in document order. *)
Fixpoint ids (t : idv) : list string :=
  match t with
  | IdStr s => [s]
  | IdObj fs => flat_map (fun kv => ids (snd kv)) fs
  end.

(** Structural equality of identifier trees, whatever the order of keys. *)
Fixpoint idEquals (a b : idv) {struct a} : bool :=
  match a, b with
  | IdStr x, IdStr y => String.eqb x y
  | IdObj fa, IdObj fb =>
      Nat.eqb (length fa) (length fb) &&
      forallb (fun kx =>
                 existsb (fun ky => String.eqb (fst ky) (fst kx)
                                    && idEquals (snd kx) (snd ky)) fb) fa
  | _, _ => false
  end.

(** Size of a value, counting its nodes. *)
Fixpoint size (v : value) : nat :=
  match v with
  | VArr l => S (list_sum (map size l))
  | VObj fs => S (list_sum (map (fun kv => size (snd kv)) fs))
  | _ => 1
  end.

(** How many of the [nodes] have no structurally equal entry in the
    recursion list yet. *)
Definition unmatched (nodes _recurseList : list value) : nat :=
  length (filter (fun u => negb (existsb (fun item => deepEquals item u) _recurseList)) nodes).

(** The names of a list are pairwise distinct. *)
Fixpoint distinct (names : list string) : bool :=
  match names with
  | [] => true
  | name :: rest => negb (existsb (String.eqb name) rest) && distinct rest
  end.

(** Property names are pairwise distinct in every object of a value. *)
Fixpoint distinctKeys (v : value) : bool :=
  match v with
  | VArr l => forallb distinctKeys l
  | VObj fs => distinct (map fst fs) && forallb (fun kv => distinctKeys (snd kv)) fs
  | _ => true
  end.

(** The object case in the words of the specification: one child per declared
    property name, in order, identified by [currentId + idSeparator + name] and
    built from the slice of the form data at that name. *)
Fixpoint declaredChildren (self : value -> option string -> value -> outcome idv)
    (properties : value) (currentId idSeparator : string) (formData : value)
    (names : list string) : outcome (list (string * idv)) :=
  match names with
  | [] => Done []
  | name :: rest =>
      child <- self (getProp properties name) (Some (currentId ++ idSeparator ++ name))
                 (get formData [name]) ;;
      others <- declaredChildren self properties currentId idSeparator formData rest ;;
      Done ((name, child) :: others)
  end.

(** A tree whose identifiers spell the path of keys that leads to them: the
    node at [x] holds [$id = x] and, under its other keys [k], which are
    pairwise distinct and satisfy [P], nodes at [x ++ sep ++ k]. *)
#[local] Unset Elimination Schemes.

Inductive pathTree (sep : string) (P : string -> Prop) : string -> idv -> Prop :=
| PathNode (x : string) (fs : list (string * idv)) :
    NoDup (map fst fs) ->
    lookup ID_KEY fs = Some (IdStr x) ->
    Forall (fun kc => fst kc <> ID_KEY ->
                      P (fst kc) /\ pathTree sep P (x ++ sep ++ fst kc) (snd kc)) fs ->
    pathTree sep P x (IdObj fs).

#[local] Set Elimination Schemes.

(** The members an identifier node at [x] may have. *)
Definition goodNode (sep : string) (P : string -> Prop) (x : string)
    (fs : list (string * idv)) : Prop :=
  NoDup (map fst fs) /\ lookup ID_KEY fs = Some (IdStr x) /\
  Forall (fun kc => fst kc <> ID_KEY ->
                    P (fst kc) /\ pathTree sep P (x ++ sep ++ fst kc) (snd kc)) fs.

(** A string that is empty or starts with the character [c]. *)
Definition sepTail (c : ascii) (s : string) : Prop :=
  s = "" \/ exists rest, s = String c rest.

Section Nodes.

Context {Validator : Type}.
Variable retrieveSchema :
  Validator -> value -> value -> value -> option MergeAllOf -> thrown + value.
Variable getSchemaType : value -> value.
Variables (validator : Validator) (rootSchema : value) (merge : option MergeAllOf).

(** The schema nodes [Inv] are closed under the three ways the builder moves
    on: into the item schema, into a declared property, into the retrieved
    node. *)
Definition Closed (Inv : value -> Prop) : Prop :=
  (forall s, Inv s -> delegatesToItems s = true -> Inv (get s [ITEMS_KEY])) /\
  (forall s name, Inv s -> isObjectWithProperties getSchemaType s = true ->
     In name (forInKeys (getProp s PROPERTIES_KEY)) ->
     Inv (getProp (getProp s PROPERTIES_KEY) name)) /\
  (forall s formData s', Inv s ->
     retrieveSchema validator s rootSchema formData merge = inr s' -> Inv s').

(** Every property name declared by an object node of [Inv] satisfies [P]. *)
Definition Declares (Inv : value -> Prop) (P : string -> Prop) : Prop :=
  forall s name, Inv s -> isObjectWithProperties getSchemaType s = true ->
    In name (forInKeys (getProp s PROPERTIES_KEY)) -> P name.

(** Retrieval from a node of [Inv] that carries a reference, dependency or
    [allOf] keyword never throws. *)
Definition Resolvable (Inv : value -> Prop) : Prop :=
  forall s formData, Inv s ->
    hasKey REF_KEY s || hasKey DEPENDENCIES_KEY s || hasKey ALL_OF_KEY s = true ->
    exists s', retrieveSchema validator s rootSchema formData merge = inr s'.

End Nodes.

(** ** A resolver and a classifier to run the builder with *)

Module Sample.

(** Splits a JSON pointer such as [#/defs/node] into its segments. *)
Fixpoint segments (cur : string) (s : string) : list string :=
  match s with
  | EmptyString => [cur]
  | String c rest =>
      if Ascii.eqb c "/"%char then cur :: segments "" rest
      else segments (cur ++ String c EmptyString) rest
  end.

Definition pointerPath (ref : string) : option (list string) :=
  match ref with
  | String "#" EmptyString => Some []
  | String "#" (String "/" rest) => Some (segments "" rest)
  | _ => None
  end.

(** Modelled from the spec: a reference is replaced by the content it points
    to within the root schema, an unresolvable reference is an error, and a
    caller-supplied merge function overrides the merge of [allOf] entirely.
    What the resolver does with [dependencies], and with [allOf] when no
    merge function is given, is not modelled: the node is returned without
    the keyword. *)
Definition resolver (validator : unit) (schema rootSchema formData : value)
    (merge : option MergeAllOf) : thrown + value :=
  match getProp schema REF_KEY with
  | VStr ref =>
      match pointerPath ref with
      | Some path =>
          match get rootSchema path with
          | VUndefined => inl (Error ("Could not find a definition for " ++ ref))
          | target => inr target
          end
      | None => inl (Error ("Could not find a definition for " ++ ref))
      end
  | _ =>
      match merge, hasKey ALL_OF_KEY schema with
      | Some custom, true => inr (custom schema)
      | _, _ =>
          match schema with
          | VObj fs =>
              inr (VObj (filter (fun kv => negb (String.eqb (fst kv) ALL_OF_KEY
                                             || String.eqb (fst kv) DEPENDENCIES_KEY)) fs))
          | other => inr other
          end
      end
  end.

(** Modelled from the spec: the explicit [type] keyword wins if present;
    otherwise [object] is inferred from [properties] and [array] from
    [items]. *)
Definition classifier (schema : value) : value :=
  match getProp schema "type" with
  | VUndefined =>
      if hasKey PROPERTIES_KEY schema then VStr "object"
      else if hasKey ITEMS_KEY schema then VStr "array"
      else VUndefined
  | declared => declared
  end.

End Sample.

(** ** The schemas of the examples *)

Module Ex.

Definition typed (t : string) : value := VObj [("type", VStr t)].

(** Scenario 1: [{type:"object", properties:{a:{type:"string"}, b:{type:"number"}}}]. *)
Definition scenario1 : value :=
  VObj [("type", VStr "object");
        ("properties", VObj [("a", typed "string"); ("b", typed "number")])].

Definition tree1 : idv :=
  IdObj [("$id", IdStr "root");
         ("a", IdObj [("$id", IdStr "root_a")]);
         ("b", IdObj [("$id", IdStr "root_b")])].

(** The nodes of scenario 1. *)
Definition nodes1 : list value := [scenario1; typed "string"; typed "number"].

(** Scenario 3: [{$ref:"#/defs/node"}] where the definition is the reference
    itself. *)
Definition selfRef : value := VObj [("$ref", VStr "#/defs/node")].
Definition selfRoot : value := VObj [("defs", VObj [("node", selfRef)])].

(** Two definitions that refer to each other. *)
Definition refTo (name : string) : value := VObj [("$ref", VStr ("#/defs/" ++ name))].
Definition holder (property target : string) : value :=
  VObj [("type", VStr "object"); ("properties", VObj [(property, refTo target)])].
Definition mutualRoot : value :=
  VObj [("defs", VObj [("a", holder "b" "b"); ("b", holder "a" "a")])].
Definition mutualNodes : list value :=
  [refTo "a"; refTo "b"; holder "b" "b"; holder "a" "a"].
Definition mutualTree : list (string * idv) :=
  [("$id", IdStr "root");
   ("b", IdObj [("$id", IdStr "root_b"); ("a", IdObj [("$id", IdStr "root_b_a")])])].

(** A definition that refers to itself and, in a second property, to a
    definition that is missing. *)
Definition brokenNode : value :=
  VObj [("type", VStr "object");
        ("properties", VObj [("self", refTo "node"); ("lost", refTo "missing")])].
Definition brokenRoot : value := VObj [("defs", VObj [("node", brokenNode)])].
Definition brokenNodes : list value := [refTo "node"; brokenNode; refTo "missing"].

(** Nodes that never repeat: each numbered reference retrieves the next. *)
Definition numbered (n : Z) : value := VObj [("$ref", VNum n)].
Definition counting (validator : unit) (schema rootSchema formData : value)
    (merge : option MergeAllOf) : thrown + value :=
  match getProp schema REF_KEY with
  | VNum n => inr (numbered (n + 1))
  | _ => inr schema
  end.

(** [{type:"array", items:{type:"string"}}]. *)
Definition stringArray : value :=
  VObj [("type", VStr "array"); ("items", typed "string")].

(** Scenario 4: an array property whose item is a reference. *)
Definition refArray (ref : string) : value :=
  VObj [("type", VStr "array"); ("items", VObj [("$ref", VStr ref)])].
Definition scenario4 (ref : string) : value :=
  VObj [("type", VStr "object"); ("properties", VObj [("items", refArray ref)])].
Definition item4 : value :=
  VObj [("type", VStr "object"); ("properties", VObj [("x", typed "string")])].
Definition root4 : value := VObj [("defs", VObj [("item", item4)])].
Definition tree4 : idv :=
  IdObj [("$id", IdStr "root"); ("items", IdObj [("$id", IdStr "root_items")])].

(** An object schema that also carries [items]. *)
Definition objectWithItems : value :=
  VObj [("type", VStr "object");
        ("properties", VObj [("a", typed "string")]);
        ("items", typed "string")].

(** An array schema whose [allOf] branch adds a property to its items, and a
    caller's merge that joins the two item schemas. *)
Definition itemWith (names : list string) : value :=
  VObj [("type", VStr "object");
        ("properties", VObj (map (fun name => (name, typed "string")) names))].
Definition allOfArray : value :=
  VObj [("type", VStr "array");
        ("items", itemWith ["a"]);
        ("allOf", VArr [VObj [("items", itemWith ["b"])]])].
Definition joinItems : MergeAllOf :=
  fun _ => VObj [("type", VStr "array"); ("items", itemWith ["a"; "b"])].

(** Two levels whose names run into each other across the separator. *)
Definition clashProperties : list (string * value) :=
  [("a", VObj [("type", VStr "object"); ("properties", VObj [("b_c", typed "string")])]);
   ("a_b", VObj [("type", VStr "object"); ("properties", VObj [("c", typed "string")])])].
Definition clash : value :=
  VObj [("type", VStr "object"); ("properties", VObj clashProperties)].

(** A property named like the identifier member, before and after a
    sibling. *)
Definition idFirst : value :=
  VObj [("type", VStr "object");
        ("properties", VObj [("$id", typed "string"); ("b", typed "number")])].
Definition idLast : value :=
  VObj [("type", VStr "object");
        ("properties", VObj [("b", typed "number"); ("$id", typed "string")])].

End Ex.

(** ** Further notions: nodes of a tree, plain schemas, the recursion list *)



(** A value that holds no [null] and no reference, dependency or [allOf]
    keyword at any depth. *)
Definition isKeyword (k : string) : bool :=
  String.eqb k REF_KEY || String.eqb k DEPENDENCIES_KEY || String.eqb k ALL_OF_KEY.

Fixpoint plain (v : value) : bool :=
  match v with
  | VNull => false
  | VArr l => forallb plain l
  | VObj fs => forallb (fun kv => negb (isKeyword (fst kv)) && plain (snd kv)) fs
  | _ => true
  end.

(** No object of a value declares a property named [$id]. *)
Fixpoint idFree (v : value) : bool :=
  match v with
  | VArr l => forallb idFree l
  | VObj fs =>
      negb (existsb (String.eqb ID_KEY) (forInKeys (getProp (VObj fs) PROPERTIES_KEY)))
      && forallb (fun kv => idFree (snd kv)) fs
  | _ => true
  end.

(** Keys in the order in which they are enumerated when one of them is
    [$id], the first that was created among those that are no array index:
    array indices, then [$id], then names that are no array index. *)
Definition idAfterIndices (keys : list string) : Prop :=
  exists indices others,
    keys = (indices ++ ID_KEY :: others)%list /\
    Forall (fun k => arrayIndex k <> None) indices /\
    Forall (fun k => arrayIndex k = None) others.

(** No entry of the recursion list is structurally equal to an earlier one,
    as [findIndex] tests it. *)
Fixpoint fresh (rl : list value) : bool :=
  match rl with
  | [] => true
  | x :: rest => forallb (fun y => negb (deepEquals x y)) rest && fresh rest
  end.

Definition isArray (v : value) : bool :=
  match v with
  | VArr _ => true
  | _ => false
  end.

(** ** Further schemas of the examples *)

Module Ex2.

(** An object whose second property refers to a definition that is missing. *)
Definition dangling : value :=
  VObj [("type", VStr "object");
        ("properties", VObj [("a", Ex.typed "string"); ("b", Ex.refTo "missing")])].

(** An array whose item schema is [null]. *)
Definition nullItems : value := VObj [("type", VStr "array"); ("items", VNull)].

(** A property named [$id] whose node has a member named [toString], before
    a sibling. *)
Definition hidden : value :=
  VObj [("type", VStr "object");
        ("properties",
         VObj [("$id", VObj [("type", VStr "object");
                             ("properties", VObj [("toString", Ex.typed "string")])]);
               ("b", Ex.typed "number")])].

(** A property whose name is an array index, declared after another. *)
Definition indexed : value :=
  VObj [("type", VStr "object");
        ("properties", VObj [("b", Ex.typed "number"); ("1", Ex.typed "string")])].

(** The resolver of a root schema all of whose references lead to one node. *)
Definition always (node : value) (validator : unit) (schema rootSchema formData : value)
    (merge : option MergeAllOf) : thrown + value := inr node.

End Ex2.

(** ** The option lists of the select and radio widgets

    [SelectWidget] (antd) and [RadioWidget] render the [enumOptions] of a
    field; what is embedded is what they compute: the option entries handed
    to the control, and the filter of the dropdown. *)

(** [a === b] on parsed values; two objects or arrays are the same when they
    are one object, which [sameObject] decides. *)
Definition strictEquals (sameObject : value -> value -> bool) (a b : value) : bool :=
  match a, b with
  | VUndefined, VUndefined => true
  | VNull, VNull => true
  | VBool x, VBool y => Bool.eqb x y
  | VNum x, VNum y => Z.eqb x y
  | VStr x, VStr y => String.eqb x y
  | (VArr _ | VObj _), (VArr _ | VObj _) => sameObject a b
  | _, _ => false
  end.

(** [array.indexOf(x)], counted from [from]; [-1] when no element is
    strictly equal to [x]. *)
Fixpoint arrayIndexOf (sameObject : value -> value -> bool) (l : list value) (x : value)
    (from : Z) : Z :=
  match l with
  | [] => (-1)%Z
  | y :: rest =>
      if strictEquals sameObject y x then from
      else arrayIndexOf sameObject rest x (from + 1)%Z
  end.

(** [Array.isArray(enumDisabled) && enumDisabled.indexOf(optionValue) !== -1]. *)
Definition itemDisabled (sameObject : value -> value -> bool) (enumDisabled optionValue : value)
    : bool :=
  match enumDisabled with
  | VArr l => negb (Z.eqb (arrayIndexOf sameObject l optionValue 0) (-1))
  | _ => false
  end.

(** An entry of the [options] of the antd select ([DefaultOptionType]); the
    placeholder entry has neither [disabled] nor [key]. *)
Record DefaultOptionType : Type := {
  optDisabled : option bool;
  optKey : option string;
  optValue : string;
  optLabel : value
}.

(** Reading [value] and [label] off an element of [enumOptions] throws on
    [null] and [undefined]. *)
Definition nullish (v : value) : bool :=
  match v with
  | VNull | VUndefined => true
  | _ => false
  end.

(** Lines 76-81 of [SelectWidget]: [enumOptions.map(...)], from position
    [index] on. *)
Fixpoint mapSelectOptions (sameObject : value -> value -> bool) (enumDisabled : value)
    (enumOptions : list value) (index : nat) : outcome (list DefaultOptionType) :=
  match enumOptions with
  | [] => Done []
  | element :: rest =>
      if nullish element then
        Throws (TypeError "Cannot destructure property 'value' of nullish element")
      else
        others <- mapSelectOptions sameObject enumDisabled rest (S index) ;;
        Done ({| optDisabled :=
                   Some (itemDisabled sameObject enumDisabled (getProp element "value"));
                 optKey := Some (indexName index);
                 optValue := indexName index;
                 optLabel := getProp element "label" |} :: others)
  end.

(** Line 72 of [SelectWidget]: [!multiple && schema.default === undefined]. *)
Definition showPlaceholderOption (multiple : bool) (schema : value) : outcome bool :=
  if multiple then Done false
  else if nullish schema then
    Throws (TypeError "Cannot read properties of nullish schema (reading 'default')")
  else Done (match getProp schema "default" with VUndefined => true | _ => false end).

(** Lines 74-89 of [SelectWidget]: the function handed to [useMemo], which
    computes the options, or [undefined] when [enumOptions] is not an array.
    The component calls it after [enumOptionsIndexForValue] (line 64), which
    is imported from the utilities and is not part of this model. *)
Definition selectOptions (sameObject : value -> value -> bool)
    (enumOptions enumDisabled : value) (placeholder : option string)
    (showPlaceholder : bool) : outcome (option (list DefaultOptionType)) :=
  match enumOptions with
  | VArr l =>
      options <- mapSelectOptions sameObject enumDisabled l 0 ;;
      Done (Some (if showPlaceholder
                  then {| optDisabled := None; optKey := None; optValue := "";
                          optLabel := VStr (orPrefix placeholder "") |} :: options
                  else options))
  | _ => Done None
  end.

(** [s.indexOf(search)]: the first position of [search] in [s], or [-1]. *)
Definition stringIndexOf (s search : string) : Z :=
  match String.index 0 search s with
  | Some position => Z.of_nat position
  | None => (-1)%Z
  end.

(** Lines 54-60 of [SelectWidget]; [toLowerCase] is the method of strings. *)
Definition filterOption (toLowerCase : string -> string) (input : string)
    (option : option DefaultOptionType) : bool :=
  match option with
  | Some entry =>
      match optLabel entry with
      | VStr label => Z.leb 0 (stringIndexOf (toLowerCase label) (toLowerCase input))
      | _ => false
      end
  | None => false
  end.

(** A radio of [RadioWidget]: the [FormControlLabel] and its [Radio]
    control. *)
Record FormControlLabel : Type := {
  radioName : string;
  radioId : string;
  radioLabel : value;
  radioValue : string;
  radioKey : nat;
  radioDisabled : bool
}.

(** Lines 66-79 of [RadioWidget]: [enumOptions.map(...)], from position
    [index] on; [optionId] is imported from the utilities. *)
Fixpoint mapRadios (sameObject : value -> value -> bool) (optionId : string -> nat -> string)
    (id : string) (enumDisabled : value) (disabled readonly : bool)
    (enumOptions : list value) (index : nat) : outcome (list FormControlLabel) :=
  match enumOptions with
  | [] => Done []
  | option :: rest =>
      if nullish option then
        Throws (TypeError (if isArray enumDisabled
                           then "Cannot read properties of nullish option (reading 'value')"
                           else "Cannot read properties of nullish option (reading 'label')"))
      else
        others <- mapRadios sameObject optionId id enumDisabled disabled readonly rest
                    (S index) ;;
        Done ({| radioName := id;
                 radioId := optionId id index;
                 radioLabel := getProp option "label";
                 radioValue := indexName index;
                 radioKey := index;
                 radioDisabled :=
                   disabled
                   || itemDisabled sameObject enumDisabled (getProp option "value")
                   || readonly |} :: others)
  end.

(** Lines 65-79 of [RadioWidget]: [Array.isArray(enumOptions) && ...]. *)
Definition radios (sameObject : value -> value -> bool) (optionId : string -> nat -> string)
    (id : string) (enumOptions enumDisabled : value) (disabled readonly : bool)
    : outcome (option (list FormControlLabel)) :=
  match enumOptions with
  | VArr l =>
      entries <- mapRadios sameObject optionId id enumDisabled disabled readonly l 0 ;;
      Done (Some entries)
  | _ => Done None
  end.

(** ** Unfolding and the recursion budget *)

Section Facts.

Context {Validator : Type}.
Variable retrieveSchema :
  Validator -> value -> value -> value -> option MergeAllOf -> thrown + value.
Variable getSchemaType : value -> value.

Local Notation "'build'" := (toIdSchemaInternal retrieveSchema getSchemaType).
Local Notation "'asIs'" := (nodeAsIs getSchemaType).

Lemma build_step fuel validator schema idPrefix idSeparator id rootSchema formData rl merge :
  build (S fuel) validator schema idPrefix idSeparator id rootSchema formData rl merge =
  if typeofObject schema then
    match schema with
    | VNull => Throws (TypeError "Cannot use 'in' operator to search for '$ref' in null")
    | _ =>
        match retrieved retrieveSchema validator schema rootSchema formData rl merge with
        | inl e => Throws e
        | inr (Some _schema) =>
            build fuel validator _schema idPrefix idSeparator id rootSchema formData
              (concat rl _schema) merge
        | inr None =>
            asIs (fun field fieldId data =>
                    build fuel validator field idPrefix idSeparator fieldId rootSchema data
                      rl merge)
              schema idSeparator id formData (single id idPrefix)
        end
    end
  else Done (IdObj (single id idPrefix)).
Proof. reflexivity. Qed.

(** A node that is not [null] and on which retrieval does not return. *)
Lemma build_asIs fuel validator schema idPrefix idSeparator id rootSchema formData rl merge :
  typeofObject schema = true -> schema <> VNull ->
  retrieved retrieveSchema validator schema rootSchema formData rl merge = inr None ->
  build (S fuel) validator schema idPrefix idSeparator id rootSchema formData rl merge =
  asIs (fun field fieldId data =>
          build fuel validator field idPrefix idSeparator fieldId rootSchema data rl merge)
    schema idSeparator id formData (single id idPrefix).
Proof.
  intros Hobj Hnull Hret. rewrite build_step, Hobj, Hret.
  destruct schema; try reflexivity. contradiction.
Qed.

(** An outcome that is not the end of the budget is the outcome of every
    run whose calls have at least the outcomes of this one. *)
Lemma forProperties_stable (self self' : value -> option string -> value -> outcome idv)
    schema sep formData names :
  (forall f i d r, self f i d = r -> r <> OutOfFuel -> self' f i d = r) ->
  forall acc r,
    forProperties self schema sep formData names acc = r -> r <> OutOfFuel ->
    forProperties self' schema sep formData names acc = r.
Proof.
  intros Hsub. induction names as [|name rest IH]; intros acc r; cbn [forProperties];
    [easy|].
  destruct (toStringId (lookup ID_KEY acc)) as [e|current]; [easy|].
  destruct (self _ _ _) as [child| |] eqn:Hchild; cbn [bind].
  - rewrite (Hsub _ _ _ _ Hchild) by discriminate. cbn [bind]. apply IH.
  - rewrite (Hsub _ _ _ _ Hchild) by discriminate. easy.
  - intros <- Hr. contradiction.
Qed.

Lemma nodeAsIs_stable (self self' : value -> option string -> value -> outcome idv)
    schema sep id formData acc r :
  (forall f i d r, self f i d = r -> r <> OutOfFuel -> self' f i d = r) ->
  asIs self schema sep id formData acc = r -> r <> OutOfFuel ->
  asIs self' schema sep id formData acc = r.
Proof.
  intros Hsub. unfold nodeAsIs.
  destruct (delegatesToItems schema); [apply Hsub|].
  destruct (isObjectWithProperties getSchemaType schema); [|easy].
  destruct (forProperties self _ _ _ _ _) as [fields| |] eqn:Hloop; cbn [bind].
  - rewrite (forProperties_stable _ _ _ _ _ _ Hsub _ _ Hloop) by discriminate. easy.
  - rewrite (forProperties_stable _ _ _ _ _ _ Hsub _ _ Hloop) by discriminate. easy.
  - intros <- Hr. contradiction.
Qed.

(** More budget never changes an outcome. *)
Lemma build_stable fuel :
  forall fuel' validator schema idPrefix idSeparator id rootSchema formData rl merge r,
    fuel <= fuel' ->
    build fuel validator schema idPrefix idSeparator id rootSchema formData rl merge = r ->
    r <> OutOfFuel ->
    build fuel' validator schema idPrefix idSeparator id rootSchema formData rl merge = r.
Proof.
  induction fuel as [|fuel IH]; intros fuel' validator schema idPrefix idSeparator id
    rootSchema formData rl merge r Hle; [intros <- Hr; contradiction|].
  destruct fuel' as [|fuel']; [lia|].
  rewrite !build_step.
  destruct schema; simpl typeofObject; cbv iota; try easy;
    (destruct (retrieved _ _ _ _ _ _ _) as [e|[next|]]; [easy| |]);
    solve [ apply IH; lia
          | apply nodeAsIs_stable; intros f i d r'; apply IH; lia ].
Qed.

(** More budget never changes a result. *)
Lemma build_mono fuel :
  forall fuel' validator schema idPrefix idSeparator id rootSchema formData rl merge t,
    fuel <= fuel' ->
    build fuel validator schema idPrefix idSeparator id rootSchema formData rl merge = Done t ->
    build fuel' validator schema idPrefix idSeparator id rootSchema formData rl merge = Done t.
Proof.
  intros fuel' validator schema idPrefix idSeparator id rootSchema formData rl merge t Hle
    Hbuild.
  eapply build_stable; [exact Hle|exact Hbuild|discriminate].
Qed.

End Facts.

(** ** The cases of the builder *)

Section Cases.

Context {Validator : Type}.
Variable retrieveSchema :
  Validator -> value -> value -> value -> option MergeAllOf -> thrown + value.
Variable getSchemaType : value -> value.

Local Notation "'build'" := (toIdSchemaInternal retrieveSchema getSchemaType).
Local Notation "'asIs'" := (nodeAsIs getSchemaType).

Lemma lands_step fuel (validator : Validator) schema rootSchema formData rl merge :
  lands retrieveSchema (S fuel) validator schema rootSchema formData rl merge =
  if typeofObject schema then
    match schema with
    | VNull => Throws (TypeError "Cannot use 'in' operator to search for '$ref' in null")
    | _ =>
        match retrieved retrieveSchema validator schema rootSchema formData rl merge with
        | inl e => Throws e
        | inr (Some _schema) =>
            lands retrieveSchema fuel validator _schema rootSchema formData
              (concat rl _schema) merge
        | inr None =>
            if delegatesToItems schema then
              lands retrieveSchema fuel validator (get schema [ITEMS_KEY]) rootSchema
                formData rl merge
            else Done (schema, rl)
        end
    end
  else Done (schema, rl).
Proof. reflexivity. Qed.

(** Where reference and [items] handling ends on a node that is not an
    object with properties, the tree is the single node. *)
Lemma lands_single fuel :
  forall (validator : Validator) schema idPrefix idSeparator id rootSchema formData rl merge
         node rl',
    lands retrieveSchema fuel validator schema rootSchema formData rl merge = Done (node, rl') ->
    typeofObject node = false \/ isObjectWithProperties getSchemaType node = false ->
    build fuel validator schema idPrefix idSeparator id rootSchema formData rl merge =
    Done (IdObj (single id idPrefix)).
Proof.
  induction fuel as [|fuel IH]; intros validator schema idPrefix idSeparator id rootSchema
    formData rl merge node rl' Hlands Hleaf; [discriminate|].
  rewrite lands_step in Hlands. rewrite build_step.
  destruct (typeofObject schema) eqn:Hobj; [|reflexivity].
  destruct schema; try discriminate;
    (destruct (retrieved _ _ _ _ _ _ _) as [e|[next|]]; [discriminate| |]);
    try (eapply IH; eassumption);
    unfold nodeAsIs;
    (destruct (delegatesToItems _); [eapply IH; eassumption|]);
    injection Hlands as <- <-;
    (destruct Hleaf as [Hleaf|Hleaf]; [rewrite Hleaf in Hobj; discriminate|]);
    rewrite Hleaf; reflexivity.
Qed.

(** Only objects and arrays have members to test with [in]. *)
Lemma hasKey_object k schema :
  hasKey k schema = true -> typeofObject schema = true /\ schema <> VNull.
Proof. destruct schema; simpl; intros H; try discriminate H; split; easy. Qed.

Lemma build_items fuel (validator : Validator) schema idPrefix idSeparator id rootSchema
    formData rl merge :
  hasKey ITEMS_KEY schema = true ->
  truthy (get schema [ITEMS_KEY; REF_KEY]) = false ->
  retrieved retrieveSchema validator schema rootSchema formData rl merge = inr None ->
  build (S fuel) validator schema idPrefix idSeparator id rootSchema formData rl merge =
  build fuel validator (get schema [ITEMS_KEY]) idPrefix idSeparator id rootSchema formData
    rl merge.
Proof.
  intros Hitems Href Hret. destruct (hasKey_object _ _ Hitems) as [Hobj Hnull].
  rewrite build_asIs by assumption.
  unfold nodeAsIs, delegatesToItems. now rewrite Hitems, Href.
Qed.

Lemma build_leaf fuel (validator : Validator) schema idPrefix idSeparator id rootSchema
    formData rl merge :
  typeofObject schema = true -> schema <> VNull ->
  retrieved retrieveSchema validator schema rootSchema formData rl merge = inr None ->
  delegatesToItems schema = false ->
  isObjectWithProperties getSchemaType schema = false ->
  build (S fuel) validator schema idPrefix idSeparator id rootSchema formData rl merge =
  Done (IdObj (single id idPrefix)).
Proof.
  intros Hobj Hnull Hret Hdel Hprops.
  rewrite build_asIs by assumption. unfold nodeAsIs. rewrite Hdel, Hprops. reflexivity.
Qed.

Lemma build_object fuel (validator : Validator) schema idPrefix idSeparator id rootSchema
    formData rl merge :
  typeofObject schema = true -> schema <> VNull ->
  retrieved retrieveSchema validator schema rootSchema formData rl merge = inr None ->
  delegatesToItems schema = false ->
  isObjectWithProperties getSchemaType schema = true ->
  build (S fuel) validator schema idPrefix idSeparator id rootSchema formData rl merge =
  fields <- forProperties
              (fun field fieldId data =>
                 build fuel validator field idPrefix idSeparator fieldId rootSchema data rl merge)
              schema idSeparator formData (forInKeys (getProp schema PROPERTIES_KEY))
              (single id idPrefix) ;;
  Done (IdObj fields).
Proof.
  intros Hobj Hnull Hret Hdel Hprops.
  rewrite build_asIs by assumption. unfold nodeAsIs. rewrite Hdel, Hprops. reflexivity.
Qed.

Lemma retrieved_no_keyword (validator : Validator) schema rootSchema formData rl merge :
  hasKey REF_KEY schema || hasKey DEPENDENCIES_KEY schema || hasKey ALL_OF_KEY schema = false ->
  retrieved retrieveSchema validator schema rootSchema formData rl merge = inr None.
Proof. intros H. unfold retrieved. rewrite H. reflexivity. Qed.

(** A retrieved node that has a structurally equal entry in the recursion
    list is not entered. *)
Lemma retrieved_seen (validator : Validator) schema rootSchema formData rl merge next :
  retrieveSchema validator schema rootSchema formData merge = inr next ->
  existsb (fun item => deepEquals item next) rl = true ->
  retrieved retrieveSchema validator schema rootSchema formData rl merge = inr None.
Proof.
  intros Hnext Hseen. unfold retrieved.
  destruct (_ || _); [|reflexivity]. rewrite Hnext, Hseen. reflexivity.
Qed.

End Cases.

(** ** Arrays in the place of a schema *)

Lemma indexName_digit i :
  exists a s, indexName i = String a s /\ 48 <= nat_of_ascii a <= 57.
Proof.
  unfold indexName, NilZero.string_of_uint.
  destruct (Nat.to_uint i); cbn [NilEmpty.string_of_uint];
    eexists _, _; (split; [reflexivity|]); cbv; lia.
Qed.

(** A keyword is neither an index nor [length]: an array has none. *)
Lemma array_key k a s l :
  k = String a s -> ~ 48 <= nat_of_ascii a <= 57 -> k <> "length" ->
  hasKey k (VArr l) = false.
Proof.
  intros Hk Hletter Hlength. cbn [hasKey].
  apply String.eqb_neq in Hlength. rewrite Hlength. cbn [orb].
  destruct (indexOf (length l) k) as [i|] eqn:Hi; [|reflexivity].
  unfold indexOf in Hi. apply find_some in Hi as [_ Hi]. apply String.eqb_eq in Hi.
  destruct (indexName_digit i) as (a' & s' & Hname & Hdigit).
  rewrite Hname, Hk in Hi. injection Hi as -> _. contradiction.
Qed.

Lemma array_keywords l :
  hasKey REF_KEY (VArr l) = false /\ hasKey DEPENDENCIES_KEY (VArr l) = false /\
  hasKey ALL_OF_KEY (VArr l) = false /\ hasKey ITEMS_KEY (VArr l) = false /\
  hasKey PROPERTIES_KEY (VArr l) = false.
Proof.
  repeat split; (eapply array_key; [reflexivity|cbv; lia|discriminate]).
Qed.

(** An array where a schema is expected is a node without children. *)
Lemma build_array {Validator : Type}
    (retrieveSchema : Validator -> value -> value -> value -> option MergeAllOf -> thrown + value)
    (getSchemaType : value -> value)
    fuel validator l idPrefix idSeparator id rootSchema formData rl merge :
  toIdSchemaInternal retrieveSchema getSchemaType (S fuel) validator (VArr l) idPrefix
    idSeparator id rootSchema formData rl merge = Done (IdObj (single id idPrefix)).
Proof.
  destruct (array_keywords l) as (Href & Hdep & Hall & Hitems & Hprops).
  apply build_leaf; try reflexivity; try discriminate.
  - apply retrieved_no_keyword. now rewrite Href, Hdep, Hall.
  - unfold delegatesToItems. now rewrite Hitems.
  - unfold isObjectWithProperties. rewrite Hprops. apply andb_false_r.
Qed.

(** ** Index names *)

Lemma to_uint_nonnil i : Nat.to_uint i <> Decimal.Nil.
Proof.
  intros Hnil. pose proof (DecimalNat.Unsigned.of_to i) as Hback.
  rewrite Hnil in Hback. cbn in Hback. subst i. vm_compute in Hnil. discriminate Hnil.
Qed.

Lemma indexName_injective i j : indexName i = indexName j -> i = j.
Proof.
  unfold indexName. intros Hname.
  apply DecimalNat.Unsigned.to_uint_inj.
  pose proof (NilZero.usu (Nat.to_uint i) (to_uint_nonnil i)) as Hi.
  pose proof (NilZero.usu (Nat.to_uint j) (to_uint_nonnil j)) as Hj.
  rewrite Hname, Hj in Hi. now injection Hi.
Qed.

Lemma indexName_nonempty i : indexName i <> "".
Proof. destruct (indexName_digit i) as (a & s & -> & _). discriminate. Qed.

Lemma indexNames_distinct from n : NoDup (map indexName (seq from n)).
Proof.
  revert from. induction n as [|n IH]; intros from; cbn [seq map]; constructor.
  - rewrite in_map_iff. intros (j & Hname & Hj). apply indexName_injective in Hname.
    apply in_seq in Hj. lia.
  - apply IH.
Qed.

(** ** Own properties *)

Section Properties.

Context {A : Type}.
Implicit Types (fs : list (string * A)) (k : string) (v : A).

Lemma lookup_member k fs v : lookup k fs = Some v -> In (k, v) fs.
Proof.
  induction fs as [|[k' x] rest IH]; simpl; [discriminate|].
  destruct (String.eqb_spec k' k) as [->|Hne].
  - intros [= ->]. now left.
  - intros H. right. now apply IH.
Qed.

Lemma lookup_absent k fs : lookup k fs = None <-> ~ In k (map fst fs).
Proof.
  induction fs as [|[k' x] rest IH]; simpl; [tauto|].
  destruct (String.eqb_spec k' k) as [->|Hne].
  - split; [discriminate|]. intros H. exfalso. apply H. now left.
  - rewrite IH. tauto.
Qed.

Lemma member_lookup k v fs : NoDup (map fst fs) -> In (k, v) fs -> lookup k fs = Some v.
Proof.
  induction fs as [|[k' x] rest IH]; simpl; [contradiction|].
  intros Hnd [[= -> ->]|Hin].
  - now rewrite String.eqb_refl.
  - inversion Hnd as [|? ? Hfresh Hrest]; subst.
    destruct (String.eqb_spec k' k) as [->|_]; [|now apply IH].
    exfalso. apply Hfresh. now apply (in_map fst) in Hin.
Qed.

Lemma lookup_app k fs fs' :
  lookup k (fs ++ fs') = match lookup k fs with Some x => Some x | None => lookup k fs' end.
Proof.
  induction fs as [|[k' x] rest IH]; simpl; [reflexivity|].
  destruct (String.eqb k' k); [reflexivity|apply IH].
Qed.

Lemma insertIndex_permutation n (entry : string * A) fs :
  Permutation (insertIndex n entry fs) (entry :: fs).
Proof.
  induction fs as [|[k' x] rest IH]; cbn [insertIndex]; [reflexivity|].
  destruct (arrayIndex k') as [m|]; [|reflexivity].
  destruct (N.ltb n m); [reflexivity|].
  rewrite IH. apply perm_swap.
Qed.

Lemma addField_permutation k v fs : Permutation (addField k v fs) ((k, v) :: fs).
Proof.
  unfold addField. destruct (arrayIndex k) as [n|].
  - apply insertIndex_permutation.
  - symmetry. apply Permutation_cons_append.
Qed.

Lemma lookup_insertIndex n k v fs k' :
  lookup k fs = None ->
  lookup k' (insertIndex n (k, v) fs) = if String.eqb k k' then Some v else lookup k' fs.
Proof.
  induction fs as [|[k0 x] rest IH]; cbn [insertIndex lookup]; [reflexivity|].
  destruct (String.eqb_spec k0 k) as [->|Hne]; [discriminate|]. intros Habsent.
  destruct (arrayIndex k0) as [m|]; [destruct (N.ltb n m)|]; cbn [lookup]; try reflexivity.
  rewrite (IH Habsent).
  destruct (String.eqb_spec k0 k') as [->|_]; [|reflexivity].
  apply String.eqb_neq in Hne. rewrite String.eqb_sym in Hne. now rewrite Hne.
Qed.

Lemma lookup_addField k v fs k' :
  lookup k fs = None ->
  lookup k' (addField k v fs) = if String.eqb k k' then Some v else lookup k' fs.
Proof.
  intros Habsent. unfold addField. destruct (arrayIndex k) as [n|].
  - now apply lookup_insertIndex.
  - rewrite lookup_app. cbn [lookup].
    destruct (String.eqb_spec k k') as [<-|_].
    + now rewrite Habsent.
    + now destruct (lookup k' fs).
Qed.

Lemma replace_keys k v fs : map fst (replace k v fs) = map fst fs.
Proof.
  induction fs as [|[k' x] rest IH]; cbn [replace map]; [reflexivity|].
  destruct (String.eqb k' k); cbn [map fst]; [reflexivity|now rewrite IH].
Qed.

Lemma replace_In k v fs k' x :
  In (k', x) (replace k v fs) -> (k', x) = (k, v) \/ In (k', x) fs.
Proof.
  induction fs as [|[k0 x0] rest IH]; cbn [replace]; [contradiction|].
  destruct (String.eqb_spec k0 k) as [->|Hne]; cbn [In].
  - intros [H|H]; [now left|right; now right].
  - intros [H|H]; [right; now left|].
    destruct (IH H) as [Heq|Hin]; [now left|right; now right].
Qed.

Lemma lookup_replace k v fs k' :
  lookup k' (replace k v fs) =
  if String.eqb k k' then match lookup k fs with Some _ => Some v | None => None end
  else lookup k' fs.
Proof.
  induction fs as [|[k0 x0] rest IH]; cbn [replace lookup].
  - now destruct (String.eqb k k').
  - destruct (String.eqb_spec k0 k) as [->|Hne]; cbn [lookup].
    + now destruct (String.eqb k k').
    + rewrite IH. destruct (String.eqb_spec k k') as [Heq|_]; [|reflexivity].
      rewrite <- Heq. apply String.eqb_neq in Hne. now rewrite Hne.
Qed.

Lemma lookup_setField_same k v fs : lookup k (setField k v fs) = Some v.
Proof.
  unfold setField. destruct (lookup k fs) as [x|] eqn:Hk.
  - now rewrite lookup_replace, String.eqb_refl, Hk.
  - now rewrite lookup_addField, String.eqb_refl.
Qed.

Lemma lookup_setField_other k k' v fs :
  k <> k' -> lookup k' (setField k v fs) = lookup k' fs.
Proof.
  intros Hne. apply String.eqb_neq in Hne. unfold setField.
  destruct (lookup k fs) as [x|] eqn:Hk.
  - now rewrite lookup_replace, Hne.
  - now rewrite lookup_addField, Hne.
Qed.

Lemma setField_keys k v fs k' :
  In k' (map fst (setField k v fs)) <-> k' = k \/ In k' (map fst fs).
Proof.
  unfold setField. destruct (lookup k fs) as [x|] eqn:Hk.
  - rewrite replace_keys. apply lookup_member, (in_map fst) in Hk. cbn [fst] in Hk.
    split; [now right|]. now intros [->|H].
  - pose proof (Permutation_map fst (addField_permutation k v fs)) as Hperm.
    cbn [map fst] in Hperm. split.
    + intros Hin. apply (Permutation_in _ Hperm) in Hin as [<-|Hin]; [now left|now right].
    + intros Hin. apply (Permutation_in _ (Permutation_sym Hperm)).
      destruct Hin as [->|Hin]; [now left|now right].
Qed.

Lemma setField_In k v fs k' x :
  In (k', x) (setField k v fs) -> (k', x) = (k, v) \/ In (k', x) fs.
Proof.
  unfold setField. destruct (lookup k fs) as [y|].
  - apply replace_In.
  - intros Hin. apply (Permutation_in _ (addField_permutation k v fs)) in Hin.
    destruct Hin as [<-|Hin]; [now left|now right].
Qed.

Lemma setField_NoDup k v fs :
  NoDup (map fst fs) -> NoDup (map fst (setField k v fs)).
Proof.
  intros Hnd. unfold setField. destruct (lookup k fs) as [x|] eqn:Hk.
  - now rewrite replace_keys.
  - pose proof (Permutation_map fst (addField_permutation k v fs)) as Hperm.
    apply (Permutation_NoDup (Permutation_sym Hperm)). cbn [map fst].
    constructor; [now apply lookup_absent|assumption].
Qed.

(** A new property whose name is no array index is added last. *)
Lemma setField_new k v fs :
  lookup k fs = None -> arrayIndex k = None -> setField k v fs = (fs ++ [(k, v)])%list.
Proof. intros Habsent Hname. unfold setField, addField. now rewrite Habsent, Hname. Qed.

(** The properties of a declared object are those declared, each once. *)
Lemma ownProperties_spec (declared : list (string * A)) :
  NoDup (map fst (ownProperties declared)) /\
  forall k, lookup k (ownProperties declared) = lookup k declared.
Proof.
  unfold ownProperties.
  assert (General : forall decl fs,
    NoDup (map fst fs) ->
    let result := fold_left (fun fs kv => match lookup (fst kv) fs with
                                          | Some _ => fs
                                          | None => addField (fst kv) (snd kv) fs
                                          end) decl fs in
    NoDup (map fst result) /\
    forall k, lookup k result =
              match lookup k fs with Some x => Some x | None => lookup k decl end).
  { induction decl as [|[k0 x0] rest IH]; intros fs Hnd; cbn [fold_left fst snd].
    - split; [assumption|]. intros k. cbn [lookup]. now destruct (lookup k fs).
    - destruct (lookup k0 fs) as [y|] eqn:Hk0.
      + destruct (IH fs Hnd) as [Hnd' Hlook]. split; [assumption|].
        intros k. rewrite Hlook. cbn [lookup].
        destruct (lookup k fs) as [z|] eqn:Hk; [reflexivity|].
        destruct (String.eqb_spec k0 k) as [->|_]; [congruence|reflexivity].
      + assert (Hnd1 : NoDup (map fst (addField k0 x0 fs))).
        { pose proof (Permutation_map fst (addField_permutation k0 x0 fs)) as Hperm.
          apply (Permutation_NoDup (Permutation_sym Hperm)). cbn [map fst].
          constructor; [now apply lookup_absent|assumption]. }
        destruct (IH _ Hnd1) as [Hnd' Hlook]. split; [assumption|].
        intros k. rewrite Hlook, (lookup_addField _ _ _ _ Hk0). cbn [lookup].
        destruct (String.eqb_spec k0 k) as [<-|_]; [now rewrite Hk0|].
        reflexivity. }
  destruct (General declared [] (NoDup_nil _)) as [Hnd Hlook].
  split; [exact Hnd|]. intros k. now rewrite Hlook.
Qed.

(** Declarations under pairwise distinct names, none of them an array
    index, are enumerated as they are declared. *)
Lemma ownProperties_declared (declared : list (string * A)) :
  NoDup (map fst declared) ->
  (forall k, In k (map fst declared) -> arrayIndex k = None) ->
  ownProperties declared = declared.
Proof.
  unfold ownProperties.
  assert (General : forall decl fs,
    NoDup (map fst (fs ++ decl)) ->
    (forall k, In k (map fst decl) -> arrayIndex k = None) ->
    fold_left (fun fs kv => match lookup (fst kv) fs with
                            | Some _ => fs
                            | None => addField (fst kv) (snd kv) fs
                            end) decl fs = (fs ++ decl)%list).
  { induction decl as [|[k0 x0] rest IH]; intros fs Hnd Hplain; cbn [fold_left fst snd].
    - now rewrite app_nil_r.
    - assert (Habsent : lookup k0 fs = None).
      { apply lookup_absent. intros Hin. rewrite map_app in Hnd.
        apply NoDup_app_remove_r in Hnd as Hfs.
        rewrite <- (app_nil_l (map fst fs ++ _)) in Hnd.
        apply in_split in Hin as (l1 & l2 & Hsplit). rewrite Hsplit in Hnd.
        rewrite <- app_assoc in Hnd. cbn [app map fst] in Hnd.
        apply NoDup_remove_2 in Hnd. apply Hnd.
        rewrite !in_app_iff. right. right. now left. }
      rewrite Habsent. unfold addField. rewrite (Hplain k0) by now left.
      rewrite IH.
      + now rewrite <- app_assoc.
      + now rewrite <- app_assoc.
      + intros k Hin. apply Hplain. now right. }
  intros Hnd Hplain. now apply (General declared []).
Qed.

End Properties.

(** The names a loop visits are pairwise distinct. *)
Lemma forInKeys_NoDup v : NoDup (forInKeys v).
Proof.
  destruct v as [| |b|n|s|l|fs]; cbn [forInKeys]; try constructor.
  - apply indexNames_distinct.
  - apply indexNames_distinct.
  - apply (ownProperties_spec fs).
Qed.

(** The names a loop over an object visits are the names it declares. *)
Lemma forInKeys_declared fs k : In k (forInKeys (VObj fs)) <-> In k (map fst fs).
Proof.
  cbn [forInKeys]. destruct (ownProperties_spec fs) as [_ Hlook]. specialize (Hlook k).
  split; intros Hin.
  - destruct (lookup k fs) as [x|] eqn:Hk.
    + apply lookup_member, (in_map fst) in Hk. exact Hk.
    + apply lookup_absent in Hlook. contradiction.
  - destruct (lookup k (ownProperties fs)) as [x|] eqn:Hk.
    + apply lookup_member, (in_map fst) in Hk. exact Hk.
    + symmetry in Hlook. apply lookup_absent in Hlook. contradiction.
Qed.

Lemma forInKeys_plain fs :
  NoDup (map fst fs) ->
  (forall k, In k (map fst fs) -> arrayIndex k = None) ->
  forInKeys (VObj fs) = map fst fs.
Proof. intros Hnd Hplain. cbn [forInKeys]. now rewrite ownProperties_declared. Qed.

(** ** The loop over the declared properties *)

Section Loop.

Variable self : value -> option string -> value -> outcome idv.
Variables (schema : value) (idSeparator : string) (formData : value).

(** While the identifier of the node is the string [x], a child is built at
    [x ++ idSeparator ++ name]. *)
Lemma forProperties_step x name rest acc :
  lookup ID_KEY acc = Some (IdStr x) ->
  forProperties self schema idSeparator formData (name :: rest) acc =
  (child <- self (getProp (getProp schema PROPERTIES_KEY) name)
              (Some (x ++ idSeparator ++ name)) (get formData [name]) ;;
   forProperties self schema idSeparator formData rest (assign acc name child)).
Proof. intros Hid. cbn [forProperties]. rewrite Hid. reflexivity. Qed.

(** On property names that are neither [$id] nor an array index the loop
    builds what the specification describes, after the members that are
    there already. *)
Lemma forProperties_declared x :
  forall names acc,
    NoDup names ->
    (forall name, In name names -> ~ In name (map fst acc)) ->
    ~ In ID_KEY names ->
    (forall name, In name names -> arrayIndex name = None) ->
    forProperties self schema idSeparator formData names ((ID_KEY, IdStr x) :: acc) =
    kids <- declaredChildren self (getProp schema PROPERTIES_KEY) x idSeparator formData
              names ;;
    Done ((ID_KEY, IdStr x) :: acc ++ kids)%list.
Proof.
  induction names as [|name rest IH]; intros acc Hnd Hfresh Hid Hplain.
  - cbn [forProperties declaredChildren bind]. now rewrite app_nil_r.
  - rewrite (forProperties_step x) by (cbn [lookup]; now rewrite String.eqb_refl).
    cbn [declaredChildren].
    destruct (self _ _ _) as [child| |]; cbn [bind]; try reflexivity.
    assert (Hname : ~ In name (map fst acc)) by (apply Hfresh; now left).
    assert (Hassign : assign ((ID_KEY, IdStr x) :: acc) name child =
                      (ID_KEY, IdStr x) :: (acc ++ [(name, child)])%list).
    { unfold assign. rewrite setField_new; [reflexivity| |apply Hplain; now left].
      cbn [lookup]. destruct (String.eqb_spec ID_KEY name) as [<-|_].
      - exfalso. apply Hid. now left.
      - now apply lookup_absent. }
    rewrite Hassign, IH.
    + destruct (declaredChildren _ _ _ _ _ _) as [kids| |]; cbn [bind]; try reflexivity.
      now rewrite <- app_assoc.
    + now inversion Hnd.
    + intros other Hin. rewrite map_app, in_app_iff. cbn [map fst In].
      intros [Hacc|[<-|[]]].
      * apply (Hfresh other); [now right|assumption].
      * inversion Hnd; contradiction.
    + intros Hin. apply Hid. now right.
    + intros other Hin. apply Hplain. now right.
Qed.



(** The loop over two runs of names is the loop over the first, then over
    the second from where the first ended. *)
Lemma forProperties_app :
  forall names names' acc,
    forProperties self schema idSeparator formData (names ++ names') acc =
    (members <- forProperties self schema idSeparator formData names acc ;;
     forProperties self schema idSeparator formData names' members).
Proof.
  induction names as [|name rest IH]; intros names' acc; [reflexivity|].
  cbn [app forProperties]. destruct (toStringId _); [reflexivity|].
  destruct (self _ _ _); cbn [bind]; auto.
Qed.

End Loop.

(** ** Strings *)

Lemma append_assoc (a b c : string) : (a ++ b) ++ c = a ++ b ++ c.
Proof. induction a as [|x a IH]; simpl; [reflexivity|]. now rewrite IH. Qed.

Lemma append_length (a b : string) :
  String.length (a ++ b) = String.length a + String.length b.
Proof. induction a as [|x a IH]; simpl; [reflexivity|]. now rewrite IH. Qed.

Lemma append_cancel (a b c : string) : a ++ b = a ++ c -> b = c.
Proof. induction a as [|x a IH]; simpl; [easy|]. intros [= H]. now apply IH. Qed.

Lemma append_empty (a b : string) : a ++ b = "" -> a = "" /\ b = "".
Proof. destruct a; simpl; [auto|discriminate]. Qed.

Lemma append_nil (a : string) : a ++ "" = a.
Proof. induction a as [|x a IH]; simpl; congruence. Qed.

(** Two names without the character [c], each followed by nothing or by [c],
    are equal when the two strings are. *)
Lemma name_before_separator c :
  forall k k' w w',
    ~ In c (list_ascii_of_string k) -> ~ In c (list_ascii_of_string k') ->
    sepTail c w -> sepTail c w' ->
    k ++ w = k' ++ w' -> k = k'.
Proof.
  induction k as [|a k IH]; intros [|a' k'] w w' Hk Hk' Hw Hw'; simpl; intros Heq.
  - reflexivity.
  - exfalso. apply Hk'. left.
    destruct Hw as [->|[rest ->]]; [discriminate|]. now injection Heq.
  - exfalso. apply Hk. left.
    destruct Hw' as [->|[rest ->]]; [discriminate|]. now injection Heq.
  - injection Heq as -> Heq. f_equal.
    apply (IH k' w w'); try assumption.
    + intros Hin. apply Hk. now right.
    + intros Hin. apply Hk'. now right.
Qed.

Lemma orPrefix_child id idPrefix sep name :
  orPrefix (Some (orPrefix id idPrefix ++ sep ++ name)) idPrefix =
  orPrefix id idPrefix ++ sep ++ name.
Proof.
  unfold orPrefix at 1.
  destruct (String.eqb_spec (orPrefix id idPrefix ++ sep ++ name) "") as [Hempty|_];
    [|reflexivity].
  rewrite Hempty. apply append_empty in Hempty as [Hx _].
  unfold orPrefix in Hx. destruct id as [s|]; [|assumption].
  destruct (String.eqb_spec s ""); [assumption|congruence].
Qed.

(** ** Induction on trees and values *)

Lemma idv_induction (Q : idv -> Prop) :
  (forall s, Q (IdStr s)) ->
  (forall fs, Forall (fun kv => Q (snd kv)) fs -> Q (IdObj fs)) ->
  forall t, Q t.
Proof.
  intros Hstr Hobj. fix IH 1. intros [s|fs]; [apply Hstr|].
  apply Hobj. induction fs as [|[k c] rest IHfs]; constructor; [apply IH|apply IHfs].
Qed.

Lemma value_induction (Q : value -> Prop) :
  Q VUndefined -> Q VNull -> (forall b, Q (VBool b)) -> (forall n, Q (VNum n)) ->
  (forall s, Q (VStr s)) ->
  (forall l, Forall Q l -> Q (VArr l)) ->
  (forall fs, Forall (fun kv => Q (snd kv)) fs -> Q (VObj fs)) ->
  forall v, Q v.
Proof.
  intros Hu Hn Hb Hz Hs Harr Hobj. fix IH 1.
  intros [| |b|n|s|l|fs];
    [exact Hu|exact Hn|apply Hb|apply Hz|apply Hs| |].
  - apply Harr. induction l as [|x rest IHl]; constructor; [apply IH|apply IHl].
  - apply Hobj. induction fs as [|[k x] rest IHfs]; constructor; [apply IH|apply IHfs].
Qed.

Lemma ids_members fs : ids (IdObj fs) = flat_map (fun kv => ids (snd kv)) fs.
Proof. reflexivity. Qed.

(** ** Trees that spell paths *)

Section Paths.

Variables (sep : string) (P : string -> Prop).

Lemma goodNode_single x : goodNode sep P x [(ID_KEY, IdStr x)].
Proof.
  repeat split.
  - repeat constructor. intros [].
  - constructor; [|constructor]. intros Hne. now contradiction Hne.
Qed.

Lemma goodNode_setField x fs name child :
  goodNode sep P x fs -> name <> ID_KEY -> P name ->
  pathTree sep P (x ++ sep ++ name) child ->
  goodNode sep P x (setField name child fs).
Proof.
  intros (Hnd & Hid & Hall) Hname HP Hchild. repeat split.
  - now apply setField_NoDup.
  - now rewrite lookup_setField_other.
  - rewrite Forall_forall in Hall |- *. intros [k c] Hin.
    destruct (setField_In _ _ _ _ _ Hin) as [[= -> ->]|Hold]; [now split|now apply Hall].
Qed.

Variable self : value -> option string -> value -> outcome idv.
Variables (schema : value) (formData : value).

Lemma forProperties_paths x :
  (forall name, P name -> name <> ID_KEY) ->
  forall names fs r,
    (forall name, In name names ->
       P name /\
       forall data t,
         self (getProp (getProp schema PROPERTIES_KEY) name) (Some (x ++ sep ++ name)) data
           = Done t ->
         pathTree sep P (x ++ sep ++ name) t) ->
    goodNode sep P x fs ->
    forProperties self schema sep formData names fs = Done r ->
    goodNode sep P x r.
Proof.
  intros HP. induction names as [|name rest IH]; intros fs r Hnames Hgood.
  - cbn [forProperties]. now intros [= <-].
  - destruct (Hnames name (or_introl eq_refl)) as [Hname Hchild].
    rewrite (forProperties_step _ _ _ _ x) by apply Hgood.
    destruct (self _ _ _) as [child| |] eqn:Hself; cbn [bind]; try discriminate.
    apply IH.
    + intros other Hin. apply Hnames. now right.
    + apply goodNode_setField; auto. eapply Hchild, Hself.
Qed.

End Paths.

(** ** What holds of every node the builder visits *)

Section Visited.

Context {Validator : Type}.
Variable retrieveSchema :
  Validator -> value -> value -> value -> option MergeAllOf -> thrown + value.
Variable getSchemaType : value -> value.
Variables (validator : Validator) (rootSchema : value) (merge : option MergeAllOf).
Variable Inv : value -> Prop.
Hypothesis Hclosed : Closed retrieveSchema getSchemaType validator rootSchema merge Inv.

Local Notation "'build'" := (toIdSchemaInternal retrieveSchema getSchemaType).

Lemma retrieved_Inv schema formData rl next :
  Inv schema ->
  retrieved retrieveSchema validator schema rootSchema formData rl merge = inr (Some next) ->
  Inv next.
Proof.
  intros Hinv. unfold retrieved. destruct (_ || _); [|discriminate].
  destruct (retrieveSchema _ _ _ _ _) as [e|s'] eqn:Hret; [discriminate|].
  destruct (existsb _ _); [discriminate|]. intros [= <-].
  destruct Hclosed as (_ & _ & Hretr). eapply Hretr; eassumption.
Qed.

(** Where no declared property is named [$id], the tree spells the paths of
    its keys from the identifier of the root. *)
Lemma build_paths (P : string -> Prop) idPrefix sep :
  Declares getSchemaType Inv P ->
  (forall name, P name -> name <> ID_KEY) ->
  forall fuel schema id formData rl t,
    Inv schema ->
    build fuel validator schema idPrefix sep id rootSchema formData rl merge = Done t ->
    pathTree sep P (orPrefix id idPrefix) t.
Proof.
  intros Hdecl HP. induction fuel as [|fuel IH]; intros schema id formData rl t Hinv;
    [discriminate|].
  assert (Hsingle : pathTree sep P (orPrefix id idPrefix) (IdObj (single id idPrefix))).
  { destruct (goodNode_single sep P (orPrefix id idPrefix)) as (Hnd & Hid & Hall).
    now constructor. }
  rewrite build_step.
  destruct (typeofObject schema); [|intros [= <-]; exact Hsingle].
  assert (Hnode :
    match retrieved retrieveSchema validator schema rootSchema formData rl merge with
    | inl e => Throws e
    | inr (Some _schema) =>
        build fuel validator _schema idPrefix sep id rootSchema formData
          (concat rl _schema) merge
    | inr None =>
        nodeAsIs getSchemaType
          (fun field fieldId data =>
             build fuel validator field idPrefix sep fieldId rootSchema data rl merge)
          schema sep id formData (single id idPrefix)
    end = Done t -> pathTree sep P (orPrefix id idPrefix) t).
  { destruct (retrieved _ _ _ _ _ _ _) as [e|[next|]] eqn:Hret; [discriminate| |].
    - apply IH. eapply retrieved_Inv; eassumption.
    - unfold nodeAsIs.
      destruct (delegatesToItems schema) eqn:Hdel.
      + apply IH. destruct Hclosed as (Hitems & _). now apply Hitems.
      + destruct (isObjectWithProperties getSchemaType schema) eqn:Hobj;
          [|intros [= <-]; exact Hsingle].
        destruct (forProperties _ _ _ _ _ _) as [fields| |] eqn:Hloop; cbn [bind];
          try discriminate.
        intros [= <-]. unfold single in Hloop.
        assert (Hnames : forall name,
                  In name (forInKeys (getProp schema PROPERTIES_KEY)) ->
                  P name /\
                  forall data t,
                    build fuel validator (getProp (getProp schema PROPERTIES_KEY) name)
                      idPrefix sep (Some (orPrefix id idPrefix ++ sep ++ name)) rootSchema
                      data rl merge = Done t ->
                    pathTree sep P (orPrefix id idPrefix ++ sep ++ name) t).
        { intros name Hin. split; [eapply Hdecl; eassumption|].
          intros data t Hchild. rewrite <- (orPrefix_child id idPrefix sep name).
          eapply IH; [|exact Hchild].
          destruct Hclosed as (_ & Hprops & _). now apply Hprops. }
        destruct (forProperties_paths sep P _ schema formData (orPrefix id idPrefix) HP
                    _ _ fields Hnames (goodNode_single sep P _) Hloop) as (Hnd & Hid & Hall).
        now constructor. }
  destruct schema; try exact Hnode. discriminate.
Qed.

End Visited.

(** ** Identifiers of a tree that spells paths *)

Section Unique.

Variables (c : ascii) (rest : string).
Local Notation "'sep'" := (String c rest).
Variable P : string -> Prop.
Hypothesis Pfree : forall name, P name -> ~ In c (list_ascii_of_string name).

(** The identifiers held under pairwise distinct keys, each either the
    identifier [x] under [$id] or an identifier that extends [x] by the
    separator and its key, are pairwise distinct. *)
Lemma members_ids x (fs : list (string * idv)) :
  NoDup (map fst fs) ->
  (forall k ch, In (k, ch) fs ->
     NoDup (ids ch) /\
     forall i, In i (ids ch) ->
       (k = ID_KEY /\ i = x) \/
       (P k /\ exists w, i = x ++ sep ++ k ++ w /\ sepTail c w)) ->
  NoDup (flat_map (fun kv => ids (snd kv)) fs).
Proof.
  induction fs as [|[k ch] more IH]; intros Hnd Hentry; [constructor|].
  cbn [flat_map snd]. inversion Hnd as [|? ? Hfresh Hmore]; subst.
  apply NoDup_app.
  - apply (Hentry k ch). now left.
  - apply IH; [assumption|]. intros k' ch' Hin. apply Hentry. now right.
  - intros i Hi Hi'. apply in_flat_map in Hi' as ([k' ch'] & Hin' & Hi'). cbn [snd] in Hi'.
    assert (Hne : k <> k').
    { intros <-. apply Hfresh. now apply (in_map fst) in Hin'. }
    destruct (proj2 (Hentry k ch (or_introl eq_refl)) i Hi)
      as [[Hk Hx]|(Hk & w & Hx & Hw)];
      destruct (proj2 (Hentry k' ch' (or_intror Hin')) i Hi')
        as [[Hk' Hx']|(Hk' & w' & Hx' & Hw')].
    + congruence.
    + rewrite Hx in Hx'. apply (f_equal String.length) in Hx'.
      rewrite !append_length in Hx'. simpl in Hx'. lia.
    + rewrite Hx' in Hx. apply (f_equal String.length) in Hx.
      rewrite !append_length in Hx. simpl in Hx. lia.
    + rewrite Hx in Hx'. apply append_cancel, append_cancel in Hx'.
      apply name_before_separator with (c := c) in Hx'; auto.
Qed.

Lemma pathTree_ids t :
  forall x, pathTree sep P x t ->
    (forall i, In i (ids t) -> exists w, i = x ++ w /\ sepTail c w) /\ NoDup (ids t).
Proof.
  induction t as [s|fs IH] using idv_induction; intros x Htree;
    inversion Htree as [x' fs' Hnd Hid Hkids]; subst.
  rewrite ids_members.
  assert (Hentry : forall k ch, In (k, ch) fs ->
            NoDup (ids ch) /\
            forall i, In i (ids ch) ->
              (k = ID_KEY /\ i = x) \/
              (P k /\ exists w, i = x ++ sep ++ k ++ w /\ sepTail c w)).
  { intros k ch Hin. rewrite Forall_forall in Hkids, IH.
    destruct (string_dec k ID_KEY) as [->|Hne].
    - pose proof (member_lookup _ _ _ Hnd Hin) as Hfound.
      rewrite Hid in Hfound. injection Hfound as <-. cbn [ids]. split.
      + repeat constructor. intros [].
      + intros i [<-|[]]. now left.
    - destruct (Hkids _ Hin Hne) as [HP Hsub]. cbn [fst snd] in HP, Hsub.
      destruct (IH _ Hin _ Hsub) as [Hform Hdistinct]. cbn [snd] in Hform, Hdistinct.
      split; [exact Hdistinct|]. intros i Hi. right. split; [exact HP|].
      destruct (Hform i Hi) as (w & -> & Hw). exists w. split; [|assumption].
      now rewrite !append_assoc. }
  split.
  - intros i Hi. apply in_flat_map in Hi as ([k ch] & Hin & Hi). cbn [snd] in Hi.
    destruct (proj2 (Hentry k ch Hin) i Hi) as [[_ ->]|(_ & w & -> & _)].
    + exists "". split; [now rewrite append_nil|now left].
    + exists (sep ++ k ++ w). split; [reflexivity|]. right. simpl. eauto.
  - now apply (members_ids x).
Qed.

End Unique.

(** ** Structural equality and the recursion list *)

Lemma all2_refl {A : Type} (same : A -> A -> bool) l :
  Forall (fun x => same x x = true) l -> all2 same l l = true.
Proof. induction 1 as [|x l Hx _ IH]; simpl; [reflexivity|]. now rewrite Hx, IH. Qed.

Lemma deepEquals_refl v : deepEquals v v = true.
Proof.
  induction v as [| |b|n|s|l IH|fs IH] using value_induction; cbn [deepEquals];
    try reflexivity.
  - apply Bool.eqb_reflx.
  - apply Z.eqb_refl.
  - apply String.eqb_refl.
  - now apply all2_refl.
  - rewrite Nat.eqb_refl. cbn [andb]. apply forallb_forall. intros kx Hin.
    apply existsb_exists. exists kx. split; [assumption|].
    rewrite String.eqb_refl. rewrite Forall_forall in IH. now apply IH.
Qed.

Lemma filter_length_le {A : Type} (f g : A -> bool) l :
  (forall y, g y = true -> f y = true) ->
  length (filter g l) <= length (filter f l).
Proof.
  intros Hsub. induction l as [|y l IH]; simpl; [lia|].
  destruct (g y) eqn:Hg.
  - rewrite (Hsub _ Hg). simpl. lia.
  - destruct (f y); simpl; lia.
Qed.

Lemma filter_length_lt {A : Type} (f g : A -> bool) l x :
  (forall y, g y = true -> f y = true) ->
  In x l -> f x = true -> g x = false ->
  length (filter g l) < length (filter f l).
Proof.
  intros Hsub Hin Hf Hg. induction l as [|y l IH]; [contradiction|].
  simpl. destruct Hin as [->|Hin].
  - rewrite Hf, Hg. simpl. pose proof (filter_length_le f g l Hsub). lia.
  - specialize (IH Hin). destruct (g y) eqn:Hgy.
    + rewrite (Hsub _ Hgy). simpl. lia.
    + destruct (f y); simpl; lia.
Qed.

(** Entering a retrieved node that was not in the recursion list leaves
    fewer nodes to enter. *)
Lemma unmatched_extend nodes rl next :
  In next nodes ->
  existsb (fun item => deepEquals item next) rl = false ->
  unmatched nodes (rl ++ [next]) < unmatched nodes rl.
Proof.
  intros Hin Hnew. unfold unmatched. apply filter_length_lt with (x := next).
  - intros y. rewrite existsb_app, negb_orb, andb_true_iff. tauto.
  - assumption.
  - now rewrite Hnew.
  - rewrite existsb_app. simpl. rewrite deepEquals_refl, orb_true_r. reflexivity.
Qed.

(** ** Sizes *)

Lemma size_positive v : 1 <= size v.
Proof. destruct v; simpl; lia. Qed.

Lemma size_element x l : In x l -> size x < size (VArr l).
Proof.
  simpl. induction l as [|y l IH]; [contradiction|]. simpl.
  intros [->|Hin]; [lia|]. specialize (IH Hin). lia.
Qed.

Lemma size_lookup k fs x : lookup k fs = Some x -> size x < size (VObj fs).
Proof.
  simpl. induction fs as [|[k' y] fs IH]; simpl; [discriminate|].
  destruct (String.eqb k' k).
  - intros [= ->]. lia.
  - intros Hx. specialize (IH Hx). lia.
Qed.

Lemma indexOf_bound n k i : indexOf n k = Some i -> i < n.
Proof.
  unfold indexOf. intros Hfind. apply find_some in Hfind as [Hin _].
  apply in_seq in Hin. lia.
Qed.

Lemma size_char s i : size (nth i (chars s) VUndefined) = 1.
Proof.
  revert i. induction s as [|a s IH]; intros [|i]; simpl; try reflexivity. apply IH.
Qed.

Lemma size_getProp v k : size (getProp v k) <= size v.
Proof.
  destruct v as [| |b|n|s|l|fs]; cbn [getProp]; try (simpl; lia).
  - destruct (String.eqb k "length"); [reflexivity|].
    destruct (indexOf _ _); [rewrite size_char|]; reflexivity.
  - destruct (String.eqb k "length"); [apply (size_positive (VArr l))|].
    destruct (indexOf _ _) as [i|] eqn:Hi; [|apply (size_positive (VArr l))].
    apply indexOf_bound in Hi. apply Nat.lt_le_incl, size_element. now apply nth_In.
  - destruct (lookup k fs) as [x|] eqn:Hx; [|apply (size_positive (VObj fs))].
    apply Nat.lt_le_incl. now apply size_lookup in Hx.
Qed.

Lemma size_member v k :
  k <> "length" -> hasKey k v = true -> size (getProp v k) < size v.
Proof.
  intros Hk. apply String.eqb_neq in Hk.
  destruct v as [| |b|n|s|l|fs]; cbn [hasKey getProp]; try discriminate.
  - rewrite Hk. cbn [orb]. destruct (indexOf _ _) as [i|] eqn:Hi; [|discriminate].
    intros _. apply indexOf_bound in Hi. apply size_element. now apply nth_In.
  - destruct (lookup k fs) as [x|] eqn:Hx; [|discriminate].
    intros _. now apply size_lookup in Hx.
Qed.

(** ** What the builder returns *)

Section Returns.

Context {Validator : Type}.
Variable retrieveSchema :
  Validator -> value -> value -> value -> option MergeAllOf -> thrown + value.
Variable getSchemaType : value -> value.

Local Notation "'build'" := (toIdSchemaInternal retrieveSchema getSchemaType).

(** What the builder returns is an object. *)
Lemma build_IdObj fuel :
  forall validator schema idPrefix sep id rootSchema formData rl merge t,
    build fuel validator schema idPrefix sep id rootSchema formData rl merge = Done t ->
    exists members, t = IdObj members.
Proof.
  induction fuel as [|fuel IH]; intros validator schema idPrefix sep id rootSchema formData
    rl merge t; [discriminate|].
  rewrite build_step.
  assert (Hnode :
    match retrieved retrieveSchema validator schema rootSchema formData rl merge with
    | inl e => Throws e
    | inr (Some _schema) =>
        build fuel validator _schema idPrefix sep id rootSchema formData
          (concat rl _schema) merge
    | inr None =>
        nodeAsIs getSchemaType
          (fun field fieldId data =>
             build fuel validator field idPrefix sep fieldId rootSchema data rl merge)
          schema sep id formData (single id idPrefix)
    end = Done t -> exists members, t = IdObj members).
  { destruct (retrieved _ _ _ _ _ _ _) as [e|[next|]]; [discriminate|apply IH|].
    unfold nodeAsIs. destruct (delegatesToItems schema); [apply IH|].
    destruct (isObjectWithProperties getSchemaType schema); [|intros [= <-]; eauto].
    destruct (forProperties _ _ _ _ _ _); cbn [bind]; try discriminate. intros [= <-]. eauto. }
  destruct schema; cbn [typeofObject]; try exact Hnode; try discriminate;
    intros [= <-]; eauto.
Qed.

End Returns.

(** ** Termination over a finite set of nodes *)

Lemma null_or_not (schema : value) : schema = VNull \/ schema <> VNull.
Proof. destruct schema; (now left) || (right; discriminate). Qed.

Section Termination.

Context {Validator : Type}.
Variable retrieveSchema :
  Validator -> value -> value -> value -> option MergeAllOf -> thrown + value.
Variable getSchemaType : value -> value.
Variables (validator : Validator) (rootSchema : value) (merge : option MergeAllOf).
Variable nodes : list value.
Hypothesis Hclosed :
  Closed retrieveSchema getSchemaType validator rootSchema merge (fun s => In s nodes).

Local Notation "'build'" := (toIdSchemaInternal retrieveSchema getSchemaType).

Lemma retrieved_Some schema formData rl next :
  retrieved retrieveSchema validator schema rootSchema formData rl merge = inr (Some next) ->
  retrieveSchema validator schema rootSchema formData merge = inr next /\
  existsb (fun item => deepEquals item next) rl = false.
Proof.
  unfold retrieved. destruct (_ || _); [|discriminate].
  destruct (retrieveSchema _ _ _ _ _) as [e|s']; [discriminate|].
  destruct (existsb _ _) eqn:Hseen; [discriminate|]. intros [= <-]. auto.
Qed.

(** The loop ends when each of the children does. *)
Lemma loop_terminates schema idPrefix sep formData rl :
  forall names,
    (forall name, In name names -> forall id data, exists fuel r,
       build fuel validator (getProp (getProp schema PROPERTIES_KEY) name) idPrefix sep id
         rootSchema data rl merge = r /\ r <> OutOfFuel) ->
    forall acc, exists fuel r,
      forProperties
        (fun field fieldId data =>
           build fuel validator field idPrefix sep fieldId rootSchema data rl merge)
        schema sep formData names acc = r /\ r <> OutOfFuel.
Proof.
  induction names as [|name rest IH]; intros Hchildren acc.
  - exists 0, (Done acc). split; [reflexivity|discriminate].
  - cbn [forProperties].
    destruct (toStringId (lookup ID_KEY acc)) as [e|current].
    { exists 0, (Throws e). split; [reflexivity|discriminate]. }
    destruct (Hchildren name (or_introl eq_refl) (Some (current ++ sep ++ name))
                (get formData [name])) as (fuel1 & outcome1 & Hchild & Hends).
    destruct outcome1 as [child|e|]; [| |contradiction].
    + destruct (IH (fun other Hin => Hchildren other (or_intror Hin))
                  (assign acc name child)) as (fuel2 & r & Hrest & Hr).
      exists (Nat.max fuel1 fuel2), r.
      rewrite (build_stable _ _ fuel1 (Nat.max fuel1 fuel2) _ _ _ _ _ _ _ _ _ _
                 (Nat.le_max_l _ _) Hchild) by discriminate.
      cbn [bind]. split; [|exact Hr].
      eapply forProperties_stable; [|exact Hrest|exact Hr].
      intros f i d r'. apply build_stable. apply Nat.le_max_r.
    + exists fuel1, (Throws e). rewrite Hchild. split; [reflexivity|discriminate].
Qed.

(** Over finitely many nodes every build ends: it returns or throws. *)
Lemma build_terminates idPrefix sep :
  forall k rl, unmatched nodes rl <= k ->
  forall n schema, size schema <= n -> In schema nodes ->
  forall id formData, exists fuel r,
    build fuel validator schema idPrefix sep id rootSchema formData rl merge = r /\
    r <> OutOfFuel.
Proof.
  induction k as [k IHk] using lt_wf_ind. intros rl Hk.
  induction n as [n IHn] using lt_wf_ind. intros schema Hsize Hin id formData.
  destruct (typeofObject schema) eqn:Hobj.
  2:{ exists 1, (Done (IdObj (single id idPrefix))). rewrite build_step, Hobj.
      split; [reflexivity|discriminate]. }
  destruct (null_or_not schema) as [->|Hnotnull].
  { exists 1, (Throws (TypeError "Cannot use 'in' operator to search for '$ref' in null")).
    split; [reflexivity|discriminate]. }
  destruct (retrieved retrieveSchema validator schema rootSchema formData rl merge)
    as [e|[next|]] eqn:Hret.
  - exists 1, (Throws e). rewrite build_step, Hobj, Hret.
    split; [|discriminate]. destruct schema; try reflexivity; contradiction.
  - destruct (retrieved_Some _ _ _ _ Hret) as [Hnext Hnew].
    assert (Hin' : In next nodes).
    { destruct Hclosed as (_ & _ & Hretr). eapply Hretr; eassumption. }
    assert (Hstep : forall fuel,
      build (S fuel) validator schema idPrefix sep id rootSchema formData rl merge =
      build fuel validator next idPrefix sep id rootSchema formData (concat rl next) merge).
    { intros fuel. rewrite build_step, Hobj, Hret.
      destruct schema; try reflexivity; contradiction. }
    assert (Hkind : (exists l, next = VArr l) \/ concat rl next = (rl ++ [next])%list)
      by (destruct next; eauto).
    destruct Hkind as [[l ->]|Hconcat].
    + exists 2, (Done (IdObj (single id idPrefix))). rewrite Hstep.
      split; [apply build_array|discriminate].
    + pose proof (unmatched_extend nodes rl next Hin' Hnew) as Hless.
      destruct (IHk (unmatched nodes (rl ++ [next])%list) ltac:(lia) (rl ++ [next])%list
                  (Nat.le_refl _) (size next) next (Nat.le_refl _) Hin' id formData)
        as (fuel & r & Hbuild & Hr).
      exists (S fuel), r. rewrite Hstep, Hconcat. now split.
  - destruct (delegatesToItems schema) eqn:Hdel.
    + assert (Hkey : hasKey ITEMS_KEY schema = true).
      { unfold delegatesToItems in Hdel. now apply andb_true_iff in Hdel as [Hkey _]. }
      pose proof (size_member schema ITEMS_KEY ltac:(discriminate) Hkey) as Hsmaller.
      destruct Hclosed as (Hitems & _ & _).
      destruct (IHn (size (getProp schema ITEMS_KEY)) ltac:(lia) (get schema [ITEMS_KEY])
                  (Nat.le_refl _) (Hitems _ Hin Hdel) id formData)
        as (fuel & r & Hbuild & Hr).
      exists (S fuel), r. rewrite build_asIs by assumption.
      unfold nodeAsIs. rewrite Hdel. now split.
    + destruct (isObjectWithProperties getSchemaType schema) eqn:Hprops.
      2:{ exists 1, (Done (IdObj (single id idPrefix))).
          split; [now apply build_leaf|discriminate]. }
      assert (Hkey : hasKey PROPERTIES_KEY schema = true).
      { unfold isObjectWithProperties in Hprops.
        now apply andb_true_iff in Hprops as [_ Hkey]. }
      pose proof (size_member schema PROPERTIES_KEY ltac:(discriminate) Hkey) as Hsmaller.
      destruct (loop_terminates schema idPrefix sep formData rl
                  (forInKeys (getProp schema PROPERTIES_KEY))) with (acc := single id idPrefix)
        as (fuel & r & Hloop & Hr).
      { intros name Hname id' data.
        pose proof (size_getProp (getProp schema PROPERTIES_KEY) name) as Hchild.
        destruct Hclosed as (_ & Hchildren & _).
        apply (IHn (size (getProp (getProp schema PROPERTIES_KEY) name)) ltac:(lia)
                 (getProp (getProp schema PROPERTIES_KEY) name) (Nat.le_refl _)
                 (Hchildren _ _ Hin Hprops Hname) id' data). }
      exists (S fuel), (fields <- r ;; Done (IdObj fields)).
      rewrite build_object by assumption. rewrite Hloop.
      split; [reflexivity|]. destruct r; cbn [bind]; try discriminate. contradiction.
Qed.

End Termination.

(** ** Builds that do not throw *)

Section NoThrow.

Context {Validator : Type}.
Variable retrieveSchema :
  Validator -> value -> value -> value -> option MergeAllOf -> thrown + value.
Variable getSchemaType : value -> value.
Variables (validator : Validator) (rootSchema : value) (merge : option MergeAllOf).
Variable Inv : value -> Prop.
Hypothesis Hclosed : Closed retrieveSchema getSchemaType validator rootSchema merge Inv.
Hypothesis Hresolvable : Resolvable retrieveSchema validator rootSchema merge Inv.
Hypothesis Hnull : ~ Inv VNull.
Hypothesis Hdeclares : Declares getSchemaType Inv (fun name => name <> ID_KEY).

Local Notation "'build'" := (toIdSchemaInternal retrieveSchema getSchemaType).

Lemma retrieved_throws schema formData rl e :
  Inv schema ->
  retrieved retrieveSchema validator schema rootSchema formData rl merge <> inl e.
Proof.
  intros Hin. unfold retrieved. destruct (_ || _) eqn:Hkey; [|discriminate].
  destruct (Hresolvable schema formData Hin Hkey) as [s' ->].
  destruct (existsb _ _); discriminate.
Qed.

(** While the identifier of the node is a string, the loop throws only when
    a child does. *)
Lemma forProperties_throws (self : value -> option string -> value -> outcome idv)
    schema sep formData x e :
  forall names acc,
    ~ In ID_KEY names ->
    lookup ID_KEY acc = Some (IdStr x) ->
    forProperties self schema sep formData names acc = Throws e ->
    exists name fieldId data,
      In name names /\
      self (getProp (getProp schema PROPERTIES_KEY) name) fieldId data = Throws e.
Proof.
  induction names as [|name rest IH]; intros acc Hid Hacc; [discriminate|].
  rewrite (forProperties_step _ _ _ _ x) by assumption.
  destruct (self _ _ _) as [child| |] eqn:Hchild; cbn [bind]; try discriminate.
  - intros Hrest. destruct (IH (assign acc name child)) with (3 := Hrest)
      as (other & fieldId & data & Hin & Hthrows).
    + intros Hin. apply Hid. now right.
    + unfold assign. rewrite lookup_setField_other; [assumption|].
      intros ->. apply Hid. now left.
    + exists other, fieldId, data. split; [now right|assumption].
  - intros [= <-]. eexists name, _, _. split; [now left|exact Hchild].
Qed.

(** Over resolvable nodes, none of them [null] and none declaring a property
    named [$id], no build throws. *)
Lemma build_never_throws fuel :
  forall schema idPrefix sep id formData rl e,
    Inv schema ->
    build fuel validator schema idPrefix sep id rootSchema formData rl merge <> Throws e.
Proof.
  induction fuel as [|fuel IH]; intros schema idPrefix sep id formData rl e Hinv;
    [discriminate|].
  rewrite build_step.
  destruct (typeofObject schema); [|discriminate].
  assert (Hnode :
    match retrieved retrieveSchema validator schema rootSchema formData rl merge with
    | inl e => Throws e
    | inr (Some _schema) =>
        build fuel validator _schema idPrefix sep id rootSchema formData
          (concat rl _schema) merge
    | inr None =>
        nodeAsIs getSchemaType
          (fun field fieldId data =>
             build fuel validator field idPrefix sep fieldId rootSchema data rl merge)
          schema sep id formData (single id idPrefix)
    end <> Throws e).
  { destruct (retrieved _ _ _ _ _ _ _) as [e'|[next|]] eqn:Hret.
    - now apply retrieved_throws in Hret.
    - apply IH. eapply retrieved_Inv; eassumption.
    - unfold nodeAsIs. destruct (delegatesToItems schema) eqn:Hdel.
      + apply IH. destruct Hclosed as (Hitems & _). now apply Hitems.
      + destruct (isObjectWithProperties getSchemaType schema) eqn:Hprops; [|discriminate].
        destruct (forProperties _ _ _ _ _ _) as [fields|e'|] eqn:Hloop; cbn [bind];
          try discriminate.
        intros [= ->].
        apply forProperties_throws with (x := orPrefix id idPrefix) in Hloop
          as (name & fieldId & data & Hname & Hchild).
        * revert Hchild. apply IH. destruct Hclosed as (_ & Hchildren & _).
          now apply Hchildren.
        * intros Hin. now apply (Hdeclares schema ID_KEY Hinv Hprops Hin).
        * unfold single. cbn [lookup]. now rewrite String.eqb_refl. }
  destruct schema; try exact Hnode. contradiction.
Qed.

End NoThrow.

(** * The properties of the builder *)

(** ** The entry point *)

(** C9: when the caller omits them, [idPrefix] is ["root"] and [idSeparator]
    is ["_"]: the entry point called without them is the builder started
    with the prefix ["root"], the separator ["_"] and an empty recursion
    list, and so returns what the entry point returns when it is given
    [idPrefix = "root"] and [idSeparator = "_"], whatever the validator,
    schema, id, root schema, form data and merge function. *)
Theorem toIdSchema_defaults :
  forall (Validator : Type)
         (retrieveSchema : Validator -> value -> value -> value -> option MergeAllOf ->
                           thrown + value)
         (getSchemaType : value -> value)
         fuel validator schema id rootSchema formData merge,
    toIdSchema retrieveSchema getSchemaType fuel validator schema id rootSchema formData
      None None merge =
    toIdSchemaInternal retrieveSchema getSchemaType fuel validator schema "root" "_" id
      rootSchema formData [] merge /\
    toIdSchema retrieveSchema getSchemaType fuel validator schema id rootSchema formData
      None None merge =
    toIdSchema retrieveSchema getSchemaType fuel validator schema id rootSchema formData
      (Some "root") (Some "_") merge.
Proof. split; reflexivity. Qed.

(** ** The single node *)

(** C10: for a schema that is not an object value (a boolean schema, say),
    and for a schema on which reference and [items] handling ends on a node
    that is not classified as an object with [properties], the builder
    returns exactly the tree [{ $id }] with no child, [$id] being the base id
    or [idPrefix]. *)
Theorem single_node :
  forall (Validator : Type)
         (retrieveSchema : Validator -> value -> value -> value -> option MergeAllOf ->
                           thrown + value)
         (getSchemaType : value -> value)
         fuel validator schema idPrefix idSeparator id rootSchema formData rl merge node rl',
    lands retrieveSchema fuel validator schema rootSchema formData rl merge = Done (node, rl') ->
    typeofObject node = false \/ isObjectWithProperties getSchemaType node = false ->
    toIdSchemaInternal retrieveSchema getSchemaType fuel validator schema idPrefix idSeparator
      id rootSchema formData rl merge =
    Done (IdObj [(ID_KEY, IdStr (orPrefix id idPrefix))]).
Proof. intros. eapply lands_single; eassumption. Qed.

Lemma single_node_witness :
  toIdSchemaInternal Sample.resolver Sample.classifier 1 tt (VBool true) "root" "_" None
    VUndefined VUndefined [] None = Done (IdObj [(ID_KEY, IdStr "root")]) /\
  toIdSchemaInternal Sample.resolver Sample.classifier 2 tt Ex.stringArray "root" "_"
    (Some "root_tags") VUndefined VUndefined [] None =
  Done (IdObj [(ID_KEY, IdStr "root_tags")]).
Proof.
  split.
  - apply (single_node unit Sample.resolver Sample.classifier 1 tt (VBool true) "root" "_"
             None VUndefined VUndefined [] None (VBool true) []).
    + reflexivity.
    + left. reflexivity.
  - apply (single_node unit Sample.resolver Sample.classifier 2 tt Ex.stringArray "root" "_"
             (Some "root_tags") VUndefined VUndefined [] None (Ex.typed "string") []).
    + reflexivity.
    + right. reflexivity.
Defined.

(** ** Arrays *)

(** C3, as stated, fails: a node that carries [allOf] (or a reference or
    dependencies) next to [items] is retrieved first, and the tree is built
    from the retrieved node, here with the merged item schema. *)
Lemma array_delegation_counterexample :
  ~ (forall (Validator : Type)
            (retrieveSchema : Validator -> value -> value -> value -> option MergeAllOf ->
                              thrown + value)
            (getSchemaType : value -> value)
            validator schema idPrefix idSeparator id rootSchema formData rl merge
            fuel fuel' t t',
       hasKey ITEMS_KEY schema = true ->
       truthy (get schema [ITEMS_KEY; REF_KEY]) = false ->
       toIdSchemaInternal retrieveSchema getSchemaType fuel validator schema idPrefix
         idSeparator id rootSchema formData rl merge = Done t ->
       toIdSchemaInternal retrieveSchema getSchemaType fuel' validator (get schema [ITEMS_KEY])
         idPrefix idSeparator id rootSchema formData rl merge = Done t' ->
       t = t').
Proof.
  intros claim.
  specialize (claim unit Sample.resolver Sample.classifier tt Ex.allOfArray "root" "_" None
                VUndefined VUndefined [] (Some Ex.joinItems) 4 4 _ _
                eq_refl eq_refl eq_refl eq_refl).
  discriminate claim.
Qed.

(** C3, amended: for a schema that carries no reference, dependency or
    [allOf] keyword to retrieve first (or whose retrieved node is in the
    recursion list already), whose [items] child is present and carries no
    truthy [$ref], the builder recurses directly into the item schema with the
    same base id, form data and recursion list: no path segment is added for
    the array. *)
Theorem array_delegation :
  forall (Validator : Type)
         (retrieveSchema : Validator -> value -> value -> value -> option MergeAllOf ->
                           thrown + value)
         (getSchemaType : value -> value)
         fuel validator schema idPrefix idSeparator id rootSchema formData rl merge,
    hasKey ITEMS_KEY schema = true ->
    truthy (get schema [ITEMS_KEY; REF_KEY]) = false ->
    retrieved retrieveSchema validator schema rootSchema formData rl merge = inr None ->
    toIdSchemaInternal retrieveSchema getSchemaType (S fuel) validator schema idPrefix
      idSeparator id rootSchema formData rl merge =
    toIdSchemaInternal retrieveSchema getSchemaType fuel validator (get schema [ITEMS_KEY])
      idPrefix idSeparator id rootSchema formData rl merge.
Proof. intros. now apply build_items. Qed.

Lemma array_delegation_witness :
  toIdSchemaInternal Sample.resolver Sample.classifier 2 tt Ex.stringArray "root" "_" None
    VUndefined VUndefined [] None =
  toIdSchemaInternal Sample.resolver Sample.classifier 1 tt (Ex.typed "string") "root" "_" None
    VUndefined VUndefined [] None.
Proof.
  apply (array_delegation unit Sample.resolver Sample.classifier 1 tt Ex.stringArray
           "root" "_" None VUndefined VUndefined [] None);
    reflexivity.
Defined.

(** C4, as stated, fails: for an array whose item is a reference the builder
    neither resolves the reference nor recurses; the tree of the array is the
    single node, not the tree of the resolved item. *)
Lemma reference_items_counterexample :
  ~ (forall (Validator : Type)
            (retrieveSchema : Validator -> value -> value -> value -> option MergeAllOf ->
                              thrown + value)
            (getSchemaType : value -> value)
            validator schema idPrefix idSeparator id rootSchema formData rl merge
            fuel fuel' t t',
       hasKey ITEMS_KEY schema = true ->
       truthy (get schema [ITEMS_KEY; REF_KEY]) = true ->
       toIdSchemaInternal retrieveSchema getSchemaType fuel validator schema idPrefix
         idSeparator id rootSchema formData rl merge = Done t ->
       toIdSchemaInternal retrieveSchema getSchemaType fuel' validator (get schema [ITEMS_KEY])
         idPrefix idSeparator id rootSchema formData rl merge = Done t' ->
       delegatesToItems schema = false /\ t = t').
Proof.
  intros claim.
  specialize (claim unit Sample.resolver Sample.classifier tt (Ex.refArray "#/defs/item")
                "root" "_" (Some "root_items") Ex.root4 VUndefined [] None 4 4 _ _
                eq_refl eq_refl eq_refl eq_refl).
  destruct claim as [_ claim]. discriminate claim.
Qed.

(** C4, amended: for a schema whose [items] child carries a truthy [$ref],
    the array delegation does not apply and the builder does not descend into
    the item at all; whatever the resolver, a node that has no keyword of its
    own to retrieve and is not an object with properties yields the single
    node: the item reference is left unresolved. *)
Theorem reference_items :
  forall (Validator : Type)
         (retrieveSchema : Validator -> value -> value -> value -> option MergeAllOf ->
                           thrown + value)
         (getSchemaType : value -> value)
         fuel validator schema idPrefix idSeparator id rootSchema formData rl merge,
    hasKey ITEMS_KEY schema = true ->
    truthy (get schema [ITEMS_KEY; REF_KEY]) = true ->
    delegatesToItems schema = false /\
    (hasKey REF_KEY schema || hasKey DEPENDENCIES_KEY schema || hasKey ALL_OF_KEY schema
       = false ->
     isObjectWithProperties getSchemaType schema = false ->
     toIdSchemaInternal retrieveSchema getSchemaType (S fuel) validator schema idPrefix
       idSeparator id rootSchema formData rl merge =
     Done (IdObj [(ID_KEY, IdStr (orPrefix id idPrefix))])).
Proof.
  intros Validator retrieveSchema getSchemaType fuel validator schema idPrefix
    idSeparator id rootSchema formData rl merge Hitems Href.
  assert (Hdel : delegatesToItems schema = false)
    by (unfold delegatesToItems; now rewrite Hitems, Href).
  destruct (hasKey_object _ _ Hitems) as [Hobj Hnull].
  split; [exact Hdel|]. intros Hkeys Hprops.
  apply build_leaf; try assumption. now apply retrieved_no_keyword.
Qed.

Lemma reference_items_witness :
  delegatesToItems (Ex.refArray "#/defs/item") = false /\
  toIdSchemaInternal (fun (_ : unit) _ _ _ _ => inl (Error "no resolver")) Sample.classifier 1 tt
    (Ex.refArray "#/defs/item") "root" "_" (Some "root_items") Ex.root4 VUndefined [] None =
  Done (IdObj [(ID_KEY, IdStr "root_items")]).
Proof.
  destruct (reference_items unit (fun _ _ _ _ _ => inl (Error "no resolver")) Sample.classifier
              0 tt (Ex.refArray "#/defs/item") "root" "_" (Some "root_items")
              Ex.root4 VUndefined [] None eq_refl eq_refl) as [Hdel Hbuild].
  split; [exact Hdel|]. apply Hbuild; reflexivity.
Defined.

(** Scenario 4: the array property whose item is a reference is a node
    without children, whatever the resolver does. *)
Example scenario4_tree :
  forall (Validator : Type)
         (retrieveSchema : Validator -> value -> value -> value -> option MergeAllOf ->
                           thrown + value)
         validator fuel,
    toIdSchema retrieveSchema Sample.classifier (S (S fuel)) validator
      (Ex.scenario4 "#/defs/item") None Ex.root4 VUndefined None None None = Done Ex.tree4.
Proof.
  intros Validator retrieveSchema validator fuel. reflexivity.
Qed.

(** ** Objects *)

Lemma typed_leaf {Validator : Type}
    (retrieveSchema : Validator -> value -> value -> value -> option MergeAllOf -> thrown + value)
    (getSchemaType : value -> value)
    fuel validator t idPrefix idSeparator id rootSchema formData rl merge :
  toIdSchemaInternal retrieveSchema getSchemaType (S fuel) validator (Ex.typed t) idPrefix
    idSeparator id rootSchema formData rl merge =
  Done (IdObj [(ID_KEY, IdStr (orPrefix id idPrefix))]).
Proof.
  apply build_leaf; try reflexivity; try discriminate.
  unfold isObjectWithProperties. apply andb_false_r.
Qed.

(** C2, as stated, fails: an object schema with declared properties that
    also carries [items] is not walked property by property; the builder
    leaves through the item schema first. *)
Lemma object_case_counterexample :
  ~ (forall (Validator : Type)
            (retrieveSchema : Validator -> value -> value -> value -> option MergeAllOf ->
                              thrown + value)
            (getSchemaType : value -> value)
            fuel validator schema props idPrefix idSeparator id rootSchema formData rl merge,
       getProp schema PROPERTIES_KEY = VObj props ->
       isObjectWithProperties getSchemaType schema = true ->
       NoDup (map fst props) ->
       toIdSchemaInternal retrieveSchema getSchemaType (S fuel) validator schema idPrefix
         idSeparator id rootSchema formData rl merge =
       kids <- declaredChildren
                 (fun field fieldId data =>
                    toIdSchemaInternal retrieveSchema getSchemaType fuel validator field
                      idPrefix idSeparator fieldId rootSchema data rl merge)
                 (VObj props) (orPrefix id idPrefix) idSeparator formData (map fst props) ;;
       Done (IdObj ((ID_KEY, IdStr (orPrefix id idPrefix)) :: kids))).
Proof.
  intros claim.
  specialize (claim unit Sample.resolver Sample.classifier 2 tt Ex.objectWithItems
                [("a", Ex.typed "string")] "root" "_" None VUndefined VUndefined [] None
                eq_refl eq_refl).
  assert (Hnd : NoDup (map fst [("a", Ex.typed "string")]))
    by (repeat constructor; intros []).
  specialize (claim Hnd). discriminate claim.
Qed.

(** C2, amended: for an object-classified schema with declared properties
    that has no reference, dependency or [allOf] keyword left to retrieve and
    no item schema to delegate to, and none of whose property names is
    [$id], [__proto__] or an array index, the builder recurses into each
    declared property name in the order in which the names are enumerated,
    with the identifier [currentId + idSeparator + name], the slice of the
    form data at that name and the recursion list of the parent, and returns
    the node of these children after its [$id]; pairwise distinct names, none
    of them an array index, are enumerated in the declared order; and for
    [{type:"object", properties:{a:{type:"string"}, b:{type:"number"}}}] with
    [idPrefix "root"] and [idSeparator "_"] the result is
    [{$id:"root", a:{$id:"root_a"}, b:{$id:"root_b"}}]. *)
Theorem object_case :
  forall (Validator : Type)
         (retrieveSchema : Validator -> value -> value -> value -> option MergeAllOf ->
                           thrown + value)
         (getSchemaType : value -> value)
         fuel validator rootSchema formData rl merge,
    (forall schema idPrefix idSeparator id,
       retrieved retrieveSchema validator schema rootSchema formData rl merge = inr None ->
       delegatesToItems schema = false ->
       isObjectWithProperties getSchemaType schema = true ->
       (forall name, In name (forInKeys (getProp schema PROPERTIES_KEY)) ->
          name <> ID_KEY /\ name <> "__proto__" /\ arrayIndex name = None) ->
       toIdSchemaInternal retrieveSchema getSchemaType (S fuel) validator schema idPrefix
         idSeparator id rootSchema formData rl merge =
       kids <- declaredChildren
                 (fun field fieldId data =>
                    toIdSchemaInternal retrieveSchema getSchemaType fuel validator field
                      idPrefix idSeparator fieldId rootSchema data rl merge)
                 (getProp schema PROPERTIES_KEY) (orPrefix id idPrefix) idSeparator formData
                 (forInKeys (getProp schema PROPERTIES_KEY)) ;;
       Done (IdObj ((ID_KEY, IdStr (orPrefix id idPrefix)) :: kids))) /\
    (forall props,
       NoDup (map fst props) ->
       (forall name, In name (map fst props) -> arrayIndex name = None) ->
       forInKeys (VObj props) = map fst props) /\
    (getSchemaType Ex.scenario1 = VStr "object" ->
     toIdSchemaInternal retrieveSchema getSchemaType (S (S fuel)) validator Ex.scenario1
       "root" "_" None rootSchema formData rl merge = Done Ex.tree1).
Proof.
  intros Validator retrieveSchema getSchemaType fuel validator rootSchema formData rl merge.
  assert (General : forall fuel schema idPrefix idSeparator id,
    retrieved retrieveSchema validator schema rootSchema formData rl merge = inr None ->
    delegatesToItems schema = false ->
    isObjectWithProperties getSchemaType schema = true ->
    (forall name, In name (forInKeys (getProp schema PROPERTIES_KEY)) ->
       name <> ID_KEY /\ name <> "__proto__" /\ arrayIndex name = None) ->
    toIdSchemaInternal retrieveSchema getSchemaType (S fuel) validator schema idPrefix
      idSeparator id rootSchema formData rl merge =
    kids <- declaredChildren
              (fun field fieldId data =>
                 toIdSchemaInternal retrieveSchema getSchemaType fuel validator field
                   idPrefix idSeparator fieldId rootSchema data rl merge)
              (getProp schema PROPERTIES_KEY) (orPrefix id idPrefix) idSeparator formData
              (forInKeys (getProp schema PROPERTIES_KEY)) ;;
    Done (IdObj ((ID_KEY, IdStr (orPrefix id idPrefix)) :: kids))).
  { clear fuel. intros fuel schema idPrefix idSeparator id Hret Hdel Hobj Hnames.
    assert (Hkey : hasKey PROPERTIES_KEY schema = true).
    { unfold isObjectWithProperties in Hobj. now apply andb_true_iff in Hobj as [_ Hkey]. }
    destruct (hasKey_object _ _ Hkey) as [Htypeof Hnull].
    rewrite build_object by assumption.
    unfold single.
    rewrite (forProperties_declared _ _ _ _ _ _ []).
    - destruct (declaredChildren _ _ _ _ _ _); reflexivity.
    - apply forInKeys_NoDup.
    - intros name _ [].
    - intros Hin. now apply Hnames in Hin as [Hid _].
    - intros name Hin. now apply Hnames in Hin as (_ & _ & Hplain). }
  split; [apply General|]. split; [apply forInKeys_plain|].
  intros Hclass.
  rewrite (General (S fuel)).
  - change (forInKeys (getProp Ex.scenario1 PROPERTIES_KEY)) with ["a"; "b"].
    cbn [declaredChildren Ex.scenario1 getProp lookup PROPERTIES_KEY String.eqb Ascii.eqb
         Bool.eqb].
    rewrite !typed_leaf. reflexivity.
  - now apply retrieved_no_keyword.
  - reflexivity.
  - unfold isObjectWithProperties. rewrite Hclass. reflexivity.
  - change (forInKeys (getProp Ex.scenario1 PROPERTIES_KEY)) with ["a"; "b"].
    intros name [<-|[<-|[]]]; repeat split; discriminate.
Qed.

Lemma object_case_witness :
  toIdSchemaInternal Sample.resolver Sample.classifier 3 tt Ex.clash "root" "_" None
    VUndefined VUndefined [] None =
  (kids <- declaredChildren
             (fun field fieldId data =>
                toIdSchemaInternal Sample.resolver Sample.classifier 2 tt field "root" "_"
                  fieldId VUndefined data [] None)
             (VObj Ex.clashProperties) "root" "_" VUndefined ["a"; "a_b"] ;;
   Done (IdObj ((ID_KEY, IdStr "root") :: kids))) /\
  forInKeys (VObj Ex.clashProperties) = ["a"; "a_b"] /\
  toIdSchemaInternal Sample.resolver Sample.classifier 2 tt Ex.scenario1 "root" "_" None
    VUndefined VUndefined [] None = Done Ex.tree1.
Proof.
  destruct (object_case unit Sample.resolver Sample.classifier 2 tt VUndefined VUndefined []
              None) as (General & _ & _).
  destruct (object_case unit Sample.resolver Sample.classifier 0 tt VUndefined VUndefined []
              None) as (_ & Order & Example).
  split; [|split].
  - apply (General Ex.clash "root" "_" None eq_refl eq_refl eq_refl).
    intros name [<-|[<-|[]]]; repeat split; discriminate.
  - apply (Order Ex.clashProperties).
    + repeat constructor; simpl; intuition discriminate.
    + intros name [<-|[<-|[]]]; reflexivity.
  - apply Example. reflexivity.
Defined.

(** ** Form data *)




(** ** Identifiers *)

(** Case analysis on a node of a finite list of nodes. *)
Ltac each_node H :=
  repeat (destruct H as [H|H]; [subst|]); try contradiction.

Lemma nodes1_closed :
  Closed Sample.resolver Sample.classifier tt VUndefined None (fun s => In s Ex.nodes1).
Proof.
  repeat split.
  - intros s Hin Hdel. each_node Hin; discriminate Hdel.
  - intros s name Hin Hobj Hname. each_node Hin; try discriminate Hobj.
    each_node Hname; simpl; auto.
  - intros s formData s' Hin Hret. each_node Hin; injection Hret as <-; simpl; auto.
Qed.

Lemma nodes1_declares (P : string -> Prop) :
  P "a" -> P "b" -> Declares Sample.classifier (fun s => In s Ex.nodes1) P.
Proof.
  intros Ha Hb s name Hin Hobj Hname. each_node Hin; try discriminate Hobj.
  each_node Hname; assumption.
Qed.




(** C5, as stated, fails: property names that are distinct at each level can
    still run into each other across the separator; [a] then [b_c], and [a_b]
    then [c], both give [root_a_b_c]. *)
Lemma unique_identifiers_counterexample :
  ~ (forall (Validator : Type)
            (retrieveSchema : Validator -> value -> value -> value -> option MergeAllOf ->
                              thrown + value)
            (getSchemaType : value -> value)
            fuel validator schema idPrefix idSeparator id rootSchema formData rl merge t,
       distinctKeys schema = true -> distinctKeys rootSchema = true ->
       toIdSchemaInternal retrieveSchema getSchemaType fuel validator schema idPrefix
         idSeparator id rootSchema formData rl merge = Done t ->
       NoDup (ids t)).
Proof.
  intros claim.
  specialize (claim unit Sample.resolver Sample.classifier 3 tt Ex.clash "root" "_" None
                VUndefined VUndefined [] None _ eq_refl eq_refl eq_refl).
  cbv [ids app] in claim.
  inversion claim as [|? ? _ claim1]. inversion claim1 as [|? ? _ claim2].
  inversion claim2 as [|? ? Hfresh _]. apply Hfresh. right. now left.
Qed.

(** C5, amended: when the separator is not empty and no declared property
    name contains its first character or is [$id], all the identifiers of the
    returned tree are pairwise distinct. *)
Theorem unique_identifiers :
  forall (Validator : Type)
         (retrieveSchema : Validator -> value -> value -> value -> option MergeAllOf ->
                           thrown + value)
         (getSchemaType : value -> value)
         validator rootSchema merge (Inv : value -> Prop) (c : ascii) (rest : string),
    Closed retrieveSchema getSchemaType validator rootSchema merge Inv ->
    Declares getSchemaType Inv
      (fun name => name <> ID_KEY /\ ~ In c (list_ascii_of_string name)) ->
    forall fuel schema idPrefix id formData rl t,
      Inv schema ->
      toIdSchemaInternal retrieveSchema getSchemaType fuel validator schema idPrefix
        (String c rest) id rootSchema formData rl merge = Done t ->
      NoDup (ids t).
Proof.
  intros Validator retrieveSchema getSchemaType validator rootSchema merge Inv c rest Hclosed
    Hdecl fuel schema idPrefix id formData rl t Hinv Hbuild.
  pose proof (build_paths retrieveSchema getSchemaType validator rootSchema merge Inv Hclosed
                _ idPrefix (String c rest) Hdecl (fun _ H => proj1 H)
                fuel schema id formData rl t Hinv Hbuild) as Htree.
  eapply pathTree_ids; [|exact Htree]. intros name [_ Hfree]. exact Hfree.
Qed.

Lemma unique_identifiers_witness : NoDup (ids Ex.tree1).
Proof.
  apply (unique_identifiers unit Sample.resolver Sample.classifier tt VUndefined None
           (fun s => In s Ex.nodes1) "_"%char "" nodes1_closed
           (nodes1_declares
              (fun name => name <> ID_KEY /\ ~ In "_"%char (list_ascii_of_string name))
              ltac:(split; [discriminate|simpl; intuition discriminate])
              ltac:(split; [discriminate|simpl; intuition discriminate]))
           2 Ex.scenario1 "root" None VUndefined [] Ex.tree1).
  - now left.
  - reflexivity.
Defined.

(** ** Cycles *)

(** C1, as stated, fails: a schema with a cycle need not be built without
    throwing.  A definition that refers to itself and, in another property,
    to a definition that is missing makes the resolver throw, and the
    builder hands the error on. *)
Lemma cyclic_schema_terminates_counterexample :
  ~ (forall (Validator : Type)
            (retrieveSchema : Validator -> value -> value -> value -> option MergeAllOf ->
                              thrown + value)
            (getSchemaType : value -> value)
            validator rootSchema merge (nodes : list value),
       Closed retrieveSchema getSchemaType validator rootSchema merge (fun s => In s nodes) ->
       forall schema idPrefix idSeparator id formData rl,
         In schema nodes ->
         exists fuel fields,
           toIdSchemaInternal retrieveSchema getSchemaType fuel validator schema idPrefix
             idSeparator id rootSchema formData rl merge = Done (IdObj fields)).
Proof.
  intros claim.
  destruct (claim unit Sample.resolver Sample.classifier tt Ex.brokenRoot None Ex.brokenNodes)
    with (schema := Ex.refTo "node") (idPrefix := "root") (idSeparator := "_")
         (id := @None string) (formData := VUndefined) (rl := @nil value)
    as (fuel & fields & Hbuild).
  - repeat split.
    + intros s Hin Hdel. each_node Hin; discriminate Hdel.
    + intros s name Hin Hobj Hname. each_node Hin; try discriminate Hobj.
      each_node Hname; simpl; auto.
    + intros s formData s' Hin Hret. each_node Hin; try discriminate Hret;
        injection Hret as <-; simpl; auto.
  - now left.
  - assert (Hthrows :
      toIdSchemaInternal Sample.resolver Sample.classifier 3 tt (Ex.refTo "node") "root" "_"
        None Ex.brokenRoot VUndefined [] None =
      Throws (Error "Could not find a definition for #/defs/missing")) by reflexivity.
    apply (build_stable _ _ _ (Nat.max fuel 3)) in Hthrows;
      [|apply Nat.le_max_r|discriminate].
    apply (build_stable _ _ _ (Nat.max fuel 3)) in Hbuild;
      [|apply Nat.le_max_l|discriminate].
    rewrite Hbuild in Hthrows. discriminate Hthrows.
Qed.

(** C1, amended: over a schema whose nodes, closed under item, property and
    retrieval steps, are finitely many (references that lead back to
    themselves or to each other), the build terminates for every form data
    and recursion list: under some budget, and every larger one, it returns
    or throws.  When none of the nodes is [null], each is resolvable and none
    declares a property named [$id], it returns an [IdSchema] without
    throwing.  And when the node computed by retrieval is structurally equal
    to an entry of the recursion list, the builder does not enter it and
    goes on with the node as it is. *)
Theorem cyclic_schema_terminates :
  forall (Validator : Type)
         (retrieveSchema : Validator -> value -> value -> value -> option MergeAllOf ->
                           thrown + value)
         (getSchemaType : value -> value)
         validator rootSchema merge (nodes : list value),
    Closed retrieveSchema getSchemaType validator rootSchema merge (fun s => In s nodes) ->
    forall schema idPrefix idSeparator id formData rl,
      In schema nodes ->
      (exists fuel outcome,
         outcome <> OutOfFuel /\
         forall fuel', fuel <= fuel' ->
           toIdSchemaInternal retrieveSchema getSchemaType fuel' validator schema idPrefix
             idSeparator id rootSchema formData rl merge = outcome) /\
      (Resolvable retrieveSchema validator rootSchema merge (fun s => In s nodes) ->
       ~ In VNull nodes ->
       Declares getSchemaType (fun s => In s nodes) (fun name => name <> ID_KEY) ->
       exists fuel fields, forall fuel', fuel <= fuel' ->
         toIdSchemaInternal retrieveSchema getSchemaType fuel' validator schema idPrefix
           idSeparator id rootSchema formData rl merge = Done (IdObj fields)) /\
      (forall next fuel,
         typeofObject schema = true -> schema <> VNull ->
         retrieveSchema validator schema rootSchema formData merge = inr next ->
         existsb (fun item => deepEquals item next) rl = true ->
         toIdSchemaInternal retrieveSchema getSchemaType (S fuel) validator schema idPrefix
           idSeparator id rootSchema formData rl merge =
         nodeAsIs getSchemaType
           (fun field fieldId data =>
              toIdSchemaInternal retrieveSchema getSchemaType fuel validator field idPrefix
                idSeparator fieldId rootSchema data rl merge)
           schema idSeparator id formData [(ID_KEY, IdStr (orPrefix id idPrefix))]).
Proof.
  intros Validator retrieveSchema getSchemaType validator rootSchema merge nodes Hclosed
    schema idPrefix idSeparator id formData rl Hin.
  destruct (build_terminates retrieveSchema getSchemaType validator rootSchema merge nodes
              Hclosed idPrefix idSeparator (unmatched nodes rl) rl
              (Nat.le_refl _) (size schema) schema (Nat.le_refl _) Hin id formData)
    as (fuel & outcome & Hbuild & Hends).
  split; [|split].
  - exists fuel, outcome. split; [exact Hends|].
    intros fuel' Hle. eapply build_stable; eassumption.
  - intros Hresolvable Hnull Hdeclares.
    destruct outcome as [t|e|]; [| |contradiction].
    + destruct (build_IdObj _ _ _ _ _ _ _ _ _ _ _ _ _ Hbuild) as [fields ->].
      exists fuel, fields. intros fuel' Hle. eapply build_mono; eassumption.
    + exfalso. revert Hbuild.
      now apply (build_never_throws retrieveSchema getSchemaType validator rootSchema merge
                   (fun s => In s nodes)).
  - intros next fuel' Hobj Hnull Hnext Hseen. apply build_asIs; [assumption|assumption|].
    eapply retrieved_seen; eassumption.
Qed.

Lemma mutual_closed :
  Closed Sample.resolver Sample.classifier tt Ex.mutualRoot None
    (fun s => In s Ex.mutualNodes).
Proof.
  repeat split.
  - intros s Hin Hdel. each_node Hin; discriminate Hdel.
  - intros s name Hin Hobj Hname. each_node Hin; try discriminate Hobj;
      each_node Hname; simpl; auto.
  - intros s formData s' Hin Hret. each_node Hin; injection Hret as <-; simpl; auto 6.
Qed.

Lemma cyclic_schema_terminates_witness :
  (exists fuel outcome,
     outcome <> OutOfFuel /\
     forall fuel', fuel <= fuel' ->
       toIdSchemaInternal Sample.resolver Sample.classifier fuel' tt (Ex.refTo "a") "root" "_"
         None Ex.mutualRoot VUndefined [] None = outcome) /\
  exists fuel fields, forall fuel', fuel <= fuel' ->
    toIdSchemaInternal Sample.resolver Sample.classifier fuel' tt (Ex.refTo "a") "root" "_"
      None Ex.mutualRoot VUndefined [] None = Done (IdObj fields).
Proof.
  destruct (cyclic_schema_terminates unit Sample.resolver Sample.classifier tt Ex.mutualRoot
              None Ex.mutualNodes mutual_closed (Ex.refTo "a") "root" "_" None VUndefined []
              (or_introl eq_refl)) as (Hends & Hreturns & _).
  split; [exact Hends|]. apply Hreturns.
  - intros s formData Hin Hkey. each_node Hin; try discriminate Hkey; eexists; reflexivity.
  - intros Hin. each_node Hin; discriminate Hin.
  - intros s name Hin Hobj Hname. each_node Hin; try discriminate Hobj;
      each_node Hname; discriminate.
Defined.

(** The two definitions that refer to each other: the walk stops where the
    first of them comes up again. *)
Example mutual_references :
  toIdSchemaInternal Sample.resolver Sample.classifier 5 tt (Ex.refTo "a") "root" "_" None
    Ex.mutualRoot VUndefined [] None = Done (IdObj Ex.mutualTree).
Proof. reflexivity. Qed.

(** Scenario 3: the reference that resolves to itself. *)
Example self_reference :
  toIdSchemaInternal Sample.resolver Sample.classifier 2 tt Ex.selfRef "root" "_" None
    Ex.selfRoot VUndefined [] None = Done (IdObj [("$id", IdStr "root")]).
Proof. reflexivity. Qed.

(** Without the finiteness of the nodes there is no termination: when every
    retrieved node is new, no budget is enough. *)
Example growing_expansion :
  forall fuel,
    toIdSchemaInternal Ex.counting Sample.classifier fuel tt (Ex.numbered 0) "root" "_" None
      VUndefined VUndefined [] None = OutOfFuel.
Proof.
  assert (Hgrow : forall fuel n rl,
    Forall (fun item => exists m, item = Ex.numbered m /\ (m <= n)%Z) rl ->
    toIdSchemaInternal Ex.counting Sample.classifier fuel tt (Ex.numbered n) "root" "_" None
      VUndefined VUndefined rl None = OutOfFuel).
  { induction fuel as [|fuel IH]; intros n rl Hrl; [reflexivity|].
    assert (Hnew : existsb (fun item => deepEquals item (Ex.numbered (n + 1))) rl = false).
    { apply not_true_is_false. intros Hex.
      apply existsb_exists in Hex as (item & Hitem & Heq).
      rewrite Forall_forall in Hrl. destruct (Hrl item Hitem) as (m & -> & Hm).
      cbn in Heq. rewrite !andb_true_r, orb_false_r in Heq.
      apply Z.eqb_eq in Heq. lia. }
    assert (Hret : retrieved Ex.counting tt (Ex.numbered n) VUndefined VUndefined rl None =
                   inr (Some (Ex.numbered (n + 1)))).
    { unfold retrieved.
      change (Ex.counting tt (Ex.numbered n) VUndefined VUndefined None)
        with (@inr thrown _ (Ex.numbered (n + 1))).
      change (hasKey REF_KEY (Ex.numbered n)) with true.
      cbn [orb]. now rewrite Hnew. }
    rewrite build_step. change (typeofObject (Ex.numbered n)) with true. cbv iota.
    unfold Ex.numbered at 1. rewrite Hret. apply IH. apply Forall_app. split.
    - eapply Forall_impl; [|exact Hrl]. intros item (m & -> & Hm). exists m. split; [easy|lia].
    - constructor; [|constructor]. exists (n + 1)%Z. split; [easy|lia]. }
  intros fuel. apply Hgrow. constructor.
Qed.

(** ** Independence of calls *)

(** C7: two calls whose schemas are structurally equal, the same properties
    declared in a different order, return trees that are not structurally
    equal when one of the properties is named [$id]: the assignment of that
    child replaces the identifier of the node, and every sibling visited
    later is identified from the replaced member. *)
Theorem key_order_changes_identifiers :
  forall (Validator : Type)
         (retrieveSchema : Validator -> value -> value -> value -> option MergeAllOf ->
                           thrown + value)
         (getSchemaType : value -> value)
         fuel validator rootSchema formData merge,
    getSchemaType Ex.idFirst = VStr "object" ->
    getSchemaType Ex.idLast = VStr "object" ->
    deepEquals Ex.idFirst Ex.idLast = true /\
    exists first last,
      toIdSchema retrieveSchema getSchemaType (S (S fuel)) validator Ex.idFirst None rootSchema
        formData None None merge = Done first /\
      toIdSchema retrieveSchema getSchemaType (S (S fuel)) validator Ex.idLast None rootSchema
        formData None None merge = Done last /\
      first = IdObj [("$id", IdObj [("$id", IdStr "root_$id")]);
                     ("b", IdObj [("$id", IdStr "[object Object]_b")])] /\
      last = IdObj [("$id", IdObj [("$id", IdStr "root_$id")]);
                    ("b", IdObj [("$id", IdStr "root_b")])] /\
      idEquals first last = false.
Proof.
  intros Validator retrieveSchema getSchemaType fuel validator rootSchema formData merge
    Hfirst Hlast.
  split; [reflexivity|].
  do 2 eexists. unfold toIdSchema.
  rewrite !build_object;
    try reflexivity; try discriminate; try (now apply retrieved_no_keyword);
    try (unfold isObjectWithProperties; rewrite ?Hfirst, ?Hlast; reflexivity).
  change (forInKeys (getProp Ex.idFirst PROPERTIES_KEY)) with ["$id"; "b"].
  change (forInKeys (getProp Ex.idLast PROPERTIES_KEY)) with ["b"; "$id"].
  cbn [forProperties].
  change (toStringId (lookup ID_KEY (single None "root"))) with (@inr thrown _ "root").
  cbv iota.
  cbn [Ex.idFirst Ex.idLast getProp lookup PROPERTIES_KEY String.eqb Ascii.eqb Bool.eqb].
  rewrite !typed_leaf. cbn [bind].
  repeat match goal with
         | |- context [toStringId (lookup ID_KEY ?node)] =>
             let current := eval vm_compute in (toStringId (lookup ID_KEY node)) in
             change (toStringId (lookup ID_KEY node)) with current
         end.
  cbv iota. rewrite !typed_leaf. cbn [bind].
  repeat split; reflexivity.
Qed.

Lemma key_order_changes_identifiers_witness :
  deepEquals Ex.idFirst Ex.idLast = true /\
  exists first last,
    toIdSchema Sample.resolver Sample.classifier 2 tt Ex.idFirst None VUndefined VUndefined
      None None None = Done first /\
    toIdSchema Sample.resolver Sample.classifier 2 tt Ex.idLast None VUndefined VUndefined
      None None None = Done last /\
    first = IdObj [("$id", IdObj [("$id", IdStr "root_$id")]);
                   ("b", IdObj [("$id", IdStr "[object Object]_b")])] /\
    last = IdObj [("$id", IdObj [("$id", IdStr "root_$id")]);
                  ("b", IdObj [("$id", IdStr "root_b")])] /\
    idEquals first last = false.
Proof.
  apply (key_order_changes_identifiers unit Sample.resolver Sample.classifier 0 tt VUndefined
           VUndefined None); reflexivity.
Defined.

(** * Further properties of the builder *)

(** ** Every node is identified by its path *)




(** ** The prefix *)

Section Prefix.

Context {Validator : Type}.
Variable retrieveSchema :
  Validator -> value -> value -> value -> option MergeAllOf -> thrown + value.
Variable getSchemaType : value -> value.

Local Notation "'build'" := (toIdSchemaInternal retrieveSchema getSchemaType).

(** Once the node has an identifier that is not empty, every child is given
    one too, also after a property named [$id] has replaced it. *)
Lemma forProperties_prefix (self self' : value -> option string -> value -> outcome idv)
    schema sep formData :
  (forall field fieldId data, fieldId <> "" ->
     self field (Some fieldId) data = self' field (Some fieldId) data) ->
  (forall field fieldId data child,
     self field fieldId data = Done child -> exists members, child = IdObj members) ->
  forall names acc,
    toStringId (lookup ID_KEY acc) <> inr "" ->
    forProperties self schema sep formData names acc =
    forProperties self' schema sep formData names acc.
Proof.
  intros Hsame Hobj. induction names as [|name rest IH]; intros acc Hid;
    cbn [forProperties]; [reflexivity|].
  destruct (toStringId (lookup ID_KEY acc)) as [e|current] eqn:Hcurrent; [reflexivity|].
  assert (Hfield : current ++ sep ++ name <> "").
  { intros Hempty. apply append_empty in Hempty as [-> _]. now apply Hid. }
  rewrite <- (Hsame _ _ _ Hfield).
  destruct (self _ _ _) as [child| |] eqn:Hchild; cbn [bind]; try reflexivity.
  apply IH. destruct (Hobj _ _ _ _ Hchild) as [members ->].
  unfold assign. destruct (String.eqb_spec name ID_KEY) as [->|Hne].
  - rewrite lookup_setField_same. cbn [toStringId].
    destruct (hasMember "toString" (IdObj members)); discriminate.
  - rewrite lookup_setField_other by assumption. now rewrite Hcurrent.
Qed.

Lemma build_prefix fuel :
  forall validator schema idPrefix idPrefix' sep s rootSchema formData rl merge,
    s <> "" ->
    build fuel validator schema idPrefix sep (Some s) rootSchema formData rl merge =
    build fuel validator schema idPrefix' sep (Some s) rootSchema formData rl merge.
Proof.
  induction fuel as [|fuel IH]; intros validator schema idPrefix idPrefix' sep s rootSchema
    formData rl merge Hs; [reflexivity|].
  rewrite !build_step.
  assert (Hid : forall p, orPrefix (Some s) p = s).
  { intros p. unfold orPrefix. apply String.eqb_neq in Hs. now rewrite Hs. }
  assert (Hsingle : single (Some s) idPrefix = single (Some s) idPrefix')
    by (unfold single; now rewrite !Hid).
  rewrite Hsingle.
  assert (Hnode :
    match retrieved retrieveSchema validator schema rootSchema formData rl merge with
    | inl e => Throws e
    | inr (Some _schema) =>
        build fuel validator _schema idPrefix sep (Some s) rootSchema formData
          (concat rl _schema) merge
    | inr None =>
        nodeAsIs getSchemaType
          (fun field fieldId data =>
             build fuel validator field idPrefix sep fieldId rootSchema data rl merge)
          schema sep (Some s) formData (single (Some s) idPrefix')
    end =
    match retrieved retrieveSchema validator schema rootSchema formData rl merge with
    | inl e => Throws e
    | inr (Some _schema) =>
        build fuel validator _schema idPrefix' sep (Some s) rootSchema formData
          (concat rl _schema) merge
    | inr None =>
        nodeAsIs getSchemaType
          (fun field fieldId data =>
             build fuel validator field idPrefix' sep fieldId rootSchema data rl merge)
          schema sep (Some s) formData (single (Some s) idPrefix')
    end).
  { destruct (retrieved _ _ _ _ _ _ _) as [e|[next|]]; [reflexivity|now apply IH|].
    unfold nodeAsIs. destruct (delegatesToItems schema); [now apply IH|].
    destruct (isObjectWithProperties getSchemaType schema); [|reflexivity].
    rewrite (forProperties_prefix _
               (fun field fieldId data =>
                  build fuel validator field idPrefix' sep fieldId rootSchema data rl merge)).
    - reflexivity.
    - intros field fieldId data Hfield. now apply IH.
    - intros field fieldId data child. apply build_IdObj.
    - unfold single. cbn [lookup ID_KEY]. rewrite String.eqb_refl, Hid. cbn [toStringId].
      intros [= Hempty]. now apply Hs. }
  destruct schema; cbn [typeofObject]; try exact Hnode; reflexivity.
Qed.

End Prefix.

(** X2: when a base id that is not empty is supplied, [idPrefix] plays no
    part: the outcome is the same for every prefix, at every depth, also when
    a property named [$id] replaces the identifier of a node. *)
Theorem prefix_unused_with_base_id :
  forall (Validator : Type)
         (retrieveSchema : Validator -> value -> value -> value -> option MergeAllOf ->
                           thrown + value)
         (getSchemaType : value -> value)
         fuel validator schema idPrefix idPrefix' idSeparator baseId rootSchema formData rl
         merge,
    baseId <> "" ->
    toIdSchemaInternal retrieveSchema getSchemaType fuel validator schema idPrefix
      idSeparator (Some baseId) rootSchema formData rl merge =
    toIdSchemaInternal retrieveSchema getSchemaType fuel validator schema idPrefix'
      idSeparator (Some baseId) rootSchema formData rl merge.
Proof. intros. now apply build_prefix. Qed.

Lemma prefix_unused_with_base_id_witness :
  toIdSchemaInternal Sample.resolver Sample.classifier 3 tt Ex.idFirst "root" "_"
    (Some "form") VUndefined VUndefined [] None =
  toIdSchemaInternal Sample.resolver Sample.classifier 3 tt Ex.idFirst "other" "_"
    (Some "form") VUndefined VUndefined [] None.
Proof.
  apply (prefix_unused_with_base_id unit Sample.resolver Sample.classifier 3 tt Ex.idFirst
           "root" "other" "_" "form" VUndefined VUndefined [] None).
  discriminate.
Defined.

(** ** Form data *)

Section FormData.

Context {Validator : Type}.
Variable retrieveSchema :
  Validator -> value -> value -> value -> option MergeAllOf -> thrown + value.
Variable getSchemaType : value -> value.
Variables (validator : Validator) (rootSchema : value) (merge : option MergeAllOf).
Hypothesis Hignores : forall schema formData formData',
  retrieveSchema validator schema rootSchema formData merge =
  retrieveSchema validator schema rootSchema formData' merge.

Local Notation "'build'" := (toIdSchemaInternal retrieveSchema getSchemaType).

Lemma forProperties_data (self self' : value -> option string -> value -> outcome idv)
    schema sep formData formData' :
  (forall field fieldId data data', self field fieldId data = self' field fieldId data') ->
  forall names acc,
    forProperties self schema sep formData names acc =
    forProperties self' schema sep formData' names acc.
Proof.
  intros Hsame. induction names as [|name rest IH]; intros acc; cbn [forProperties];
    [reflexivity|].
  destruct (toStringId (lookup ID_KEY acc)) as [e|current]; [reflexivity|].
  rewrite (Hsame _ _ _ (get formData' [name])).
  destruct (self' _ _ _); cbn [bind]; auto.
Qed.

Lemma build_data fuel :
  forall schema idPrefix sep id formData formData' rl,
    build fuel validator schema idPrefix sep id rootSchema formData rl merge =
    build fuel validator schema idPrefix sep id rootSchema formData' rl merge.
Proof.
  induction fuel as [|fuel IH]; intros schema idPrefix sep id formData formData' rl;
    [reflexivity|].
  rewrite !build_step.
  assert (Hret : retrieved retrieveSchema validator schema rootSchema formData rl merge =
                 retrieved retrieveSchema validator schema rootSchema formData' rl merge)
    by (unfold retrieved; now rewrite (Hignores schema formData formData')).
  rewrite Hret.
  assert (Hnode :
    match retrieved retrieveSchema validator schema rootSchema formData' rl merge with
    | inl e => Throws e
    | inr (Some _schema) =>
        build fuel validator _schema idPrefix sep id rootSchema formData
          (concat rl _schema) merge
    | inr None =>
        nodeAsIs getSchemaType
          (fun field fieldId data =>
             build fuel validator field idPrefix sep fieldId rootSchema data rl merge)
          schema sep id formData (single id idPrefix)
    end =
    match retrieved retrieveSchema validator schema rootSchema formData' rl merge with
    | inl e => Throws e
    | inr (Some _schema) =>
        build fuel validator _schema idPrefix sep id rootSchema formData'
          (concat rl _schema) merge
    | inr None =>
        nodeAsIs getSchemaType
          (fun field fieldId data =>
             build fuel validator field idPrefix sep fieldId rootSchema data rl merge)
          schema sep id formData' (single id idPrefix)
    end).
  { clear Hret.
    destruct (retrieved retrieveSchema validator schema rootSchema formData' rl merge)
      as [e|[next|]]; [reflexivity|apply IH|].
    unfold nodeAsIs. destruct (delegatesToItems schema); [apply IH|].
    destruct (isObjectWithProperties getSchemaType schema); [|reflexivity].
    rewrite (forProperties_data _
               (fun field fieldId data =>
                  build fuel validator field idPrefix sep fieldId rootSchema data rl merge)
               schema sep formData formData'); [reflexivity|].
    intros field fieldId data data'. apply IH. }
  destruct schema; cbn [typeofObject]; try exact Hnode; reflexivity.
Qed.

End FormData.

(** X3: the form data reaches the tree only through [retrieveSchema]: with a
    resolver whose answer does not depend on the form data, the outcome of the
    builder is the same for any two form data. *)
Theorem form_data_only_through_retrieval :
  forall (Validator : Type)
         (retrieveSchema : Validator -> value -> value -> value -> option MergeAllOf ->
                           thrown + value)
         (getSchemaType : value -> value)
         validator rootSchema merge,
    (forall schema formData formData',
       retrieveSchema validator schema rootSchema formData merge =
       retrieveSchema validator schema rootSchema formData' merge) ->
    forall fuel schema idPrefix idSeparator id formData formData' rl,
      toIdSchemaInternal retrieveSchema getSchemaType fuel validator schema idPrefix
        idSeparator id rootSchema formData rl merge =
      toIdSchemaInternal retrieveSchema getSchemaType fuel validator schema idPrefix
        idSeparator id rootSchema formData' rl merge.
Proof. intros. now apply build_data. Qed.

Lemma form_data_only_through_retrieval_witness :
  toIdSchemaInternal Sample.resolver Sample.classifier 5 tt (Ex.refTo "a") "root" "_" None
    Ex.mutualRoot VUndefined [] None =
  toIdSchemaInternal Sample.resolver Sample.classifier 5 tt (Ex.refTo "a") "root" "_" None
    Ex.mutualRoot (VObj [("b", VStr "filled")]) [] None.
Proof.
  apply (form_data_only_through_retrieval unit Sample.resolver Sample.classifier tt
           Ex.mutualRoot None).
  reflexivity.
Defined.

(** ** Plain schemas *)

Lemma plain_member v k : plain v = true -> plain (getProp v k) = true.
Proof.
  destruct v as [| |b|n|s|l|fs]; cbn [getProp]; try reflexivity; try discriminate.
  - intros _. destruct (String.eqb k "length"); [reflexivity|].
    destruct (indexOf _ _) as [i|]; [|reflexivity].
    revert i. induction s as [|a s IH]; intros [|i]; simpl; try reflexivity. apply IH.
  - cbn [plain]. intros Hall. destruct (String.eqb k "length"); [reflexivity|].
    destruct (indexOf _ _) as [i|] eqn:Hi; [|reflexivity].
    apply indexOf_bound in Hi. rewrite forallb_forall in Hall. apply Hall. now apply nth_In.
  - cbn [plain]. intros Hall. destruct (lookup k fs) as [x|] eqn:Hx; [|reflexivity].
    apply lookup_member in Hx. rewrite forallb_forall in Hall.
    specialize (Hall _ Hx). now apply andb_true_iff in Hall as [_ Hall].
Qed.

Lemma plain_no_keyword v k :
  plain v = true -> isKeyword k = true -> hasKey k v = false.
Proof.
  intros Hplain Hk. destruct v as [| |b|n|s|l|fs]; try reflexivity.
  - destruct (array_keywords l) as (Href & Hdep & Hall & _).
    unfold isKeyword in Hk. apply orb_true_iff in Hk as [Hk|Hk];
      [apply orb_true_iff in Hk as [Hk|Hk]|]; apply String.eqb_eq in Hk; now subst.
  - cbn [hasKey]. destruct (lookup k fs) as [x|] eqn:Hx; [|reflexivity].
    apply lookup_member in Hx. cbn [plain] in Hplain. rewrite forallb_forall in Hplain.
    specialize (Hplain _ Hx). cbn [fst] in Hplain. now rewrite Hk in Hplain.
Qed.

Lemma idFree_member v k : idFree v = true -> idFree (getProp v k) = true.
Proof.
  destruct v as [| |b|n|s|l|fs]; cbn [getProp]; try reflexivity.
  - intros _. destruct (String.eqb k "length"); [reflexivity|].
    destruct (indexOf _ _) as [i|]; [|reflexivity].
    revert i. induction s as [|a s IH]; intros [|i]; simpl; try reflexivity. apply IH.
  - cbn [idFree]. intros Hall. destruct (String.eqb k "length"); [reflexivity|].
    destruct (indexOf _ _) as [i|] eqn:Hi; [|reflexivity].
    apply indexOf_bound in Hi. rewrite forallb_forall in Hall. apply Hall. now apply nth_In.
  - cbn [idFree]. intros Hall. apply andb_true_iff in Hall as [_ Hall].
    destruct (lookup k fs) as [x|] eqn:Hx; [|reflexivity].
    apply lookup_member in Hx. rewrite forallb_forall in Hall. now apply (Hall _ Hx).
Qed.

Lemma idFree_names v :
  idFree v = true -> ~ In ID_KEY (forInKeys (getProp v PROPERTIES_KEY)).
Proof.
  destruct v as [| |b|n|s|l|fs]; try (intros _ []).
  - intros _. cbn [getProp]. change (String.eqb PROPERTIES_KEY "length") with false.
    cbv iota. destruct (indexOf _ _) as [i|]; [|intros []].
    revert i. induction s as [|a s IH]; intros [|i]; simpl; try tauto.
    + intros [H|[]]. discriminate H.
    + apply IH.
  - intros _ Hin.
    assert (Hkey : hasKey PROPERTIES_KEY (VArr l) = false) by apply array_keywords.
    cbn [hasKey getProp] in Hkey, Hin.
    change (String.eqb PROPERTIES_KEY "length") with false in Hkey, Hin.
    cbn [orb] in Hkey. cbv iota in Hin.
    destruct (indexOf (length l) PROPERTIES_KEY); [discriminate|contradiction].
  - cbn [idFree]. intros Hall. apply andb_true_iff in Hall as [Hnone _].
    apply negb_true_iff in Hnone. intros Hin.
    assert (Hsome : existsb (String.eqb ID_KEY)
                      (forInKeys (getProp (VObj fs) PROPERTIES_KEY)) = true).
    { apply existsb_exists. exists ID_KEY. split; [exact Hin|apply String.eqb_refl]. }
    congruence.
Qed.

Section Plain.

Variable getSchemaType : value -> value.

(** The loop over children that end the same whoever calls them. *)
Lemma forProperties_family {I : Type}
    (selfs : I -> value -> option string -> value -> outcome idv) (datas : I -> value)
    schema sep (good : Prop) :
  forall names,
    (forall name fieldId, In name names ->
       exists r, r <> OutOfFuel /\ (good -> exists child, r = Done child) /\
         forall i data,
           selfs i (getProp (getProp schema PROPERTIES_KEY) name) fieldId data = r) ->
    forall acc, exists r,
      r <> OutOfFuel /\
      (good -> ~ In ID_KEY names -> (exists x, lookup ID_KEY acc = Some (IdStr x)) ->
       exists members, r = Done members) /\
      forall i, forProperties (selfs i) schema sep (datas i) names acc = r.
Proof.
  induction names as [|name rest IH]; intros Hchildren acc.
  - exists (Done acc). split; [discriminate|]. split; [eauto|reflexivity].
  - cbn [forProperties].
    destruct (toStringId (lookup ID_KEY acc)) as [e|current] eqn:Hcurrent.
    { exists (Throws e). split; [discriminate|]. split; [|reflexivity].
      intros _ _ [x Hx]. rewrite Hx in Hcurrent. discriminate Hcurrent. }
    destruct (Hchildren name (Some (current ++ sep ++ name)) (or_introl eq_refl))
      as (outcome & Hends & Hgood & Hsame).
    destruct outcome as [child|e|]; [| |contradiction].
    + destruct (IH (fun other fieldId Hin => Hchildren other fieldId (or_intror Hin))
                  (assign acc name child)) as (r & Hr & Hreturns & Hrest).
      exists r. split; [exact Hr|]. split.
      * intros Hg Hid [x Hx]. apply Hreturns; [exact Hg| |].
        -- intros Hin. apply Hid. now right.
        -- exists x. unfold assign. rewrite lookup_setField_other; [exact Hx|].
           intros ->. apply Hid. now left.
      * intros i. rewrite Hsame. cbn [bind]. apply Hrest.
    + exists (Throws e). split; [discriminate|]. split.
      * intros Hg _ _. destruct (Hgood Hg) as [child Hchild]. discriminate Hchild.
      * intros i. now rewrite Hsame.
Qed.

Lemma build_plain :
  forall n schema idPrefix sep id,
    size schema <= n -> plain schema = true ->
    exists r,
      r <> OutOfFuel /\
      (idFree schema = true -> exists members, r = Done (IdObj members)) /\
      forall (Validator : Type)
             (retrieveSchema : Validator -> value -> value -> value -> option MergeAllOf ->
                               thrown + value)
             validator rootSchema formData rl merge,
        toIdSchemaInternal retrieveSchema getSchemaType n validator schema idPrefix sep id
          rootSchema formData rl merge = r.
Proof.
  induction n as [|n IH]; intros schema idPrefix sep id Hsize Hplain.
  { pose proof (size_positive schema). lia. }
  assert (Hsingle : exists r : outcome idv,
            r <> OutOfFuel /\
            (idFree schema = true -> exists members, r = Done (IdObj members)) /\
            r = Done (IdObj (single id idPrefix))).
  { exists (Done (IdObj (single id idPrefix))). split; [discriminate|]. split; eauto. }
  destruct (typeofObject schema) eqn:Hobj.
  2:{ destruct Hsingle as (r & Hr & Hreturns & ->). eexists. split; [exact Hr|].
      split; [exact Hreturns|]. intros. rewrite build_step, Hobj. reflexivity. }
  assert (Hnull : schema <> VNull) by (intros ->; discriminate).
  assert (Hret : forall (Validator : Type)
                        (retrieveSchema : Validator -> value -> value -> value ->
                                          option MergeAllOf -> thrown + value)
                        validator rootSchema formData rl merge,
            retrieved retrieveSchema validator schema rootSchema formData rl merge = inr None).
  { intros. apply retrieved_no_keyword.
    rewrite !(plain_no_keyword schema) by (assumption || reflexivity). reflexivity. }
  destruct (delegatesToItems schema) eqn:Hdel.
  - assert (Hkey : hasKey ITEMS_KEY schema = true).
    { unfold delegatesToItems in Hdel. now apply andb_true_iff in Hdel as [Hkey _]. }
    pose proof (size_member schema ITEMS_KEY ltac:(discriminate) Hkey) as Hsmaller.
    destruct (IH (get schema [ITEMS_KEY]) idPrefix sep id ltac:(cbn [get fold_left]; lia)
                (plain_member schema ITEMS_KEY Hplain)) as (r & Hr & Hreturns & Hbuild).
    exists r. split; [exact Hr|]. split.
    + intros Hfree. apply Hreturns. now apply (idFree_member schema ITEMS_KEY).
    + intros. rewrite build_asIs by auto. unfold nodeAsIs. rewrite Hdel. apply Hbuild.
  - destruct (isObjectWithProperties getSchemaType schema) eqn:Hprops.
    2:{ destruct Hsingle as (r & Hr & Hreturns & ->). eexists. split; [exact Hr|].
        split; [exact Hreturns|]. intros. now apply build_leaf. }
    assert (Hkey : hasKey PROPERTIES_KEY schema = true).
    { unfold isObjectWithProperties in Hprops.
      now apply andb_true_iff in Hprops as [_ Hkey]. }
    pose proof (size_member schema PROPERTIES_KEY ltac:(discriminate) Hkey) as Hsmaller.
    destruct (forProperties_family
                (I := {Validator : Type &
                       ((Validator -> value -> value -> value -> option MergeAllOf ->
                         thrown + value) * Validator * value * value * list value *
                        option MergeAllOf)%type})
                (fun i field fieldId data =>
                   let '(existT _ Validator (retrieveSchema, validator, rootSchema, _, rl,
                                             merge)) := i in
                   toIdSchemaInternal retrieveSchema getSchemaType n validator field idPrefix
                     sep fieldId rootSchema data rl merge)
                (fun i => let '(existT _ _ (_, _, _, formData, _, _)) := i in formData)
                schema sep (idFree schema = true)
                (forInKeys (getProp schema PROPERTIES_KEY)))
      with (acc := single id idPrefix) as (loop & Hloop & Hreturns & Hsame).
    { intros name fieldId _.
      pose proof (size_getProp (getProp schema PROPERTIES_KEY) name) as Hchild.
      destruct (IH (getProp (getProp schema PROPERTIES_KEY) name) idPrefix sep fieldId
                  ltac:(lia) (plain_member _ name (plain_member _ PROPERTIES_KEY Hplain)))
        as (r & Hr & Hdone & Hbuild).
      exists r. split; [exact Hr|]. split.
      - intros Hfree. destruct Hdone as [members ->]; [|eauto].
        now apply idFree_member, idFree_member.
      - intros [Validator [[[[[retrieveSchema validator] rootSchema] fd] rl] merge]] data.
        apply Hbuild. }
    exists (fields <- loop ;; Done (IdObj fields)). split; [|split].
    + destruct loop; cbn [bind]; try discriminate. contradiction.
    + intros Hfree. destruct Hreturns as [members ->]; [exact Hfree| | |].
      * now apply idFree_names.
      * exists (orPrefix id idPrefix). unfold single. cbn [lookup].
        now rewrite String.eqb_refl.
      * cbn [bind]. eauto.
    + intros. rewrite build_object by auto.
      rewrite (Hsame (existT _ Validator
                        (retrieveSchema, validator, rootSchema, formData, rl, merge))).
      reflexivity.
Qed.

End Plain.

(** X4: a schema that holds no [null] and no reference, dependency or
    [allOf] keyword is walked without the resolver: a budget of the size of
    the schema is enough for the build to end, and it ends the same, with the
    same tree or the same error, for every resolver, validator, root schema,
    form data, recursion list and merge function; when no object of the
    schema declares a property named [$id], it returns a tree. *)
Theorem plain_schema_builds :
  forall (getSchemaType : value -> value) schema idPrefix idSeparator id,
    plain schema = true ->
    exists outcome,
      outcome <> OutOfFuel /\
      (idFree schema = true -> exists members, outcome = Done (IdObj members)) /\
      forall (Validator : Type)
             (retrieveSchema : Validator -> value -> value -> value -> option MergeAllOf ->
                               thrown + value)
             validator rootSchema formData rl merge fuel,
        size schema <= fuel ->
        toIdSchemaInternal retrieveSchema getSchemaType fuel validator schema idPrefix
          idSeparator id rootSchema formData rl merge = outcome.
Proof.
  intros getSchemaType schema idPrefix idSeparator id Hplain.
  destruct (build_plain getSchemaType (size schema) schema idPrefix idSeparator id
              (Nat.le_refl _) Hplain) as (outcome & Hends & Hreturns & Hbuild).
  exists outcome. split; [exact Hends|]. split; [exact Hreturns|].
  intros Validator retrieveSchema validator rootSchema formData rl merge fuel Hfuel.
  eapply build_stable; [exact Hfuel|apply Hbuild|exact Hends].
Qed.

Lemma plain_schema_builds_witness :
  (exists outcome,
     outcome <> OutOfFuel /\
     (idFree Ex.clash = true -> exists members, outcome = Done (IdObj members)) /\
     forall (Validator : Type)
            (retrieveSchema : Validator -> value -> value -> value -> option MergeAllOf ->
                              thrown + value)
            validator rootSchema formData rl merge fuel,
       size Ex.clash <= fuel ->
       toIdSchemaInternal retrieveSchema Sample.classifier fuel validator Ex.clash "root" "_"
         None rootSchema formData rl merge = outcome) /\
  idFree Ex.clash = true.
Proof.
  split; [|reflexivity].
  apply (plain_schema_builds Sample.classifier Ex.clash "root" "_" None). reflexivity.
Defined.

(** ** Errors *)

Section Errors.

Context {Validator : Type}.
Variable retrieveSchema :
  Validator -> value -> value -> value -> option MergeAllOf -> thrown + value.
Variable getSchemaType : value -> value.

Local Notation "'build'" := (toIdSchemaInternal retrieveSchema getSchemaType).

Lemma lands_throws fuel :
  forall validator schema idPrefix sep id rootSchema formData rl merge e,
    lands retrieveSchema fuel validator schema rootSchema formData rl merge = Throws e ->
    build fuel validator schema idPrefix sep id rootSchema formData rl merge = Throws e.
Proof.
  induction fuel as [|fuel IH]; intros validator schema idPrefix sep id rootSchema formData
    rl merge e; [discriminate|].
  rewrite lands_step, build_step.
  assert (Hnode :
    match retrieved retrieveSchema validator schema rootSchema formData rl merge with
    | inl e => Throws e
    | inr (Some _schema) =>
        lands retrieveSchema fuel validator _schema rootSchema formData
          (concat rl _schema) merge
    | inr None =>
        if delegatesToItems schema then
          lands retrieveSchema fuel validator (get schema [ITEMS_KEY]) rootSchema
            formData rl merge
        else Done (schema, rl)
    end = Throws e ->
    match retrieved retrieveSchema validator schema rootSchema formData rl merge with
    | inl e => Throws e
    | inr (Some _schema) =>
        build fuel validator _schema idPrefix sep id rootSchema formData
          (concat rl _schema) merge
    | inr None =>
        nodeAsIs getSchemaType
          (fun field fieldId data =>
             build fuel validator field idPrefix sep fieldId rootSchema data rl merge)
          schema sep id formData (single id idPrefix)
    end = Throws e).
  { destruct (retrieved retrieveSchema validator schema rootSchema formData rl merge)
      as [e'|[next|]]; [now intros [= ->]|apply IH|].
    unfold nodeAsIs. destruct (delegatesToItems schema); [apply IH|discriminate]. }
  destruct schema; cbn [typeofObject];
    first [exact Hnode | discriminate | now intros [= ->]].
Qed.

End Errors.

(** X5: an error in the loop over the properties aborts the object.  When
    the properties enumerated before a property return, and then either the
    identifier of the node cannot be converted to a string (it was replaced
    by the node of a property named [$id] that has a member [toString]) or
    the build of the property throws, the build of the object throws that
    error: no tree is returned and the properties enumerated after it are not
    visited. *)
Theorem child_error_aborts :
  forall (Validator : Type)
         (retrieveSchema : Validator -> value -> value -> value -> option MergeAllOf ->
                           thrown + value)
         (getSchemaType : value -> value)
         fuel validator schema idPrefix idSeparator id rootSchema formData rl merge
         before name after members e,
    retrieved retrieveSchema validator schema rootSchema formData rl merge = inr None ->
    delegatesToItems schema = false ->
    isObjectWithProperties getSchemaType schema = true ->
    forInKeys (getProp schema PROPERTIES_KEY) = (before ++ name :: after)%list ->
    forProperties
      (fun field fieldId data =>
         toIdSchemaInternal retrieveSchema getSchemaType fuel validator field idPrefix
           idSeparator fieldId rootSchema data rl merge)
      schema idSeparator formData before [(ID_KEY, IdStr (orPrefix id idPrefix))]
      = Done members ->
    (toStringId (lookup ID_KEY members) = inl e \/
     exists current,
       toStringId (lookup ID_KEY members) = inr current /\
       toIdSchemaInternal retrieveSchema getSchemaType fuel validator
         (getProp (getProp schema PROPERTIES_KEY) name) idPrefix idSeparator
         (Some (current ++ idSeparator ++ name)) rootSchema
         (get formData [name]) rl merge = Throws e) ->
    toIdSchemaInternal retrieveSchema getSchemaType (S fuel) validator schema idPrefix
      idSeparator id rootSchema formData rl merge = Throws e.
Proof.
  intros Validator retrieveSchema getSchemaType fuel validator schema idPrefix idSeparator id
    rootSchema formData rl merge before name after members e Hret Hdel Hprops Hnames Hbefore
    Herror.
  assert (Hkey : hasKey PROPERTIES_KEY schema = true).
  { unfold isObjectWithProperties in Hprops. now apply andb_true_iff in Hprops as [_ Hkey]. }
  destruct (hasKey_object _ _ Hkey) as [Hobj Hnull].
  rewrite build_object by assumption.
  rewrite Hnames, forProperties_app. unfold single. rewrite Hbefore.
  cbn [bind forProperties].
  destruct Herror as [Hcurrent|(current & Hcurrent & Hchild)]; rewrite Hcurrent.
  - reflexivity.
  - rewrite Hchild. reflexivity.
Qed.

Lemma child_error_aborts_witness :
  toIdSchemaInternal Sample.resolver Sample.classifier 3 tt Ex2.dangling "root" "_" None
    VUndefined VUndefined [] None =
  Throws (Error "Could not find a definition for #/defs/missing") /\
  toIdSchemaInternal Sample.resolver Sample.classifier 4 tt Ex2.hidden "root" "_" None
    VUndefined VUndefined [] None =
  Throws (TypeError "Cannot convert object to primitive value").
Proof.
  split.
  - apply (child_error_aborts unit Sample.resolver Sample.classifier 2 tt Ex2.dangling "root"
             "_" None VUndefined VUndefined [] None ["a"] "b" []
             [(ID_KEY, IdStr "root"); ("a", IdObj [(ID_KEY, IdStr "root_a")])]);
      try reflexivity.
    right. exists "root". split; reflexivity.
  - apply (child_error_aborts unit Sample.resolver Sample.classifier 3 tt Ex2.hidden "root"
             "_" None VUndefined VUndefined [] None ["$id"] "b" []
             [(ID_KEY, IdObj [(ID_KEY, IdStr "root_$id");
                              ("toString", IdObj [(ID_KEY, IdStr "root_$id_toString")])])]);
      try reflexivity.
    left. reflexivity.
Defined.

(** X6: an error met while references are retrieved and item schemas are
    entered surfaces unchanged: a resolver that throws, or a [null] where a
    schema is expected (at the root, or as the item schema of an array),
    makes the build throw that error. *)
Theorem landing_error_surfaces :
  forall (Validator : Type)
         (retrieveSchema : Validator -> value -> value -> value -> option MergeAllOf ->
                           thrown + value)
         (getSchemaType : value -> value)
         fuel validator schema idPrefix idSeparator id rootSchema formData rl merge e,
    lands retrieveSchema fuel validator schema rootSchema formData rl merge = Throws e ->
    toIdSchemaInternal retrieveSchema getSchemaType fuel validator schema idPrefix
      idSeparator id rootSchema formData rl merge = Throws e.
Proof. intros. now apply lands_throws. Qed.

Lemma landing_error_surfaces_witness :
  toIdSchemaInternal Sample.resolver Sample.classifier 2 tt Ex2.nullItems "root" "_" None
    VUndefined VUndefined [] None =
  Throws (TypeError "Cannot use 'in' operator to search for '$ref' in null").
Proof.
  apply (landing_error_surfaces unit Sample.resolver Sample.classifier 2 tt Ex2.nullItems
           "root" "_" None VUndefined VUndefined [] None).
  reflexivity.
Defined.

(** ** The members of the returned node *)

(** A new array index is placed among the array indices. *)
Lemma insertIndex_indices {A : Type} n k (v : A) (others : list string) :
  arrayIndex k <> None ->
  match others with [] => True | k0 :: _ => arrayIndex k0 = None end ->
  forall indices fs,
    map fst fs = (indices ++ others)%list ->
    Forall (fun k => arrayIndex k <> None) indices ->
    exists indices',
      map fst (insertIndex n (k, v) fs) = (indices' ++ others)%list /\
      Forall (fun k => arrayIndex k <> None) indices'.
Proof.
  intros Hk Hothers. induction indices as [|i0 indices IH]; intros fs Hkeys Hindices.
  - exists [k]. split; [|now repeat constructor].
    destruct fs as [|[k0 x0] fs]; cbn [insertIndex].
    + cbn [app map] in Hkeys. now rewrite <- Hkeys.
    + cbn [app map fst] in Hkeys. rewrite <- Hkeys in Hothers. rewrite Hothers.
      cbn [map fst app]. now rewrite Hkeys.
  - destruct fs as [|[k0 x0] fs]; [discriminate|].
    cbn [app map fst] in Hkeys. injection Hkeys as -> Hkeys.
    inversion Hindices as [|? ? Hi0 Hrest]; subst.
    cbn [insertIndex]. destruct (arrayIndex i0) as [m|] eqn:Hm; [|contradiction].
    destruct (N.ltb n m).
    + exists (k :: i0 :: indices). cbn [map fst app]. rewrite Hkeys.
      split; [reflexivity|]. constructor; [assumption|]. constructor; [congruence|assumption].
    + destruct (IH fs Hkeys Hrest) as (indices' & Hkeys' & Hindices').
      exists (i0 :: indices'). cbn [map fst app]. rewrite Hkeys'.
      split; [reflexivity|]. constructor; [congruence|assumption].
Qed.

(** An assignment keeps [$id] after the array indices and before the other
    names. *)
Lemma setField_idAfterIndices {A : Type} k (v : A) fs :
  idAfterIndices (map fst fs) -> idAfterIndices (map fst (setField k v fs)).
Proof.
  intros (indices & others & Hkeys & Hindices & Hothers). unfold setField.
  destruct (lookup k fs) as [x|].
  - rewrite replace_keys. now exists indices, others.
  - unfold addField. destruct (arrayIndex k) as [n|] eqn:Hk.
    + assert (Hindex : arrayIndex k <> None) by congruence.
      destruct (insertIndex_indices n k v (ID_KEY :: others) Hindex eq_refl indices fs
                  Hkeys Hindices) as (indices' & Hkeys' & Hindices').
      now exists indices', others.
    + exists indices, (others ++ [k])%list. rewrite map_app, Hkeys. cbn [map fst].
      rewrite <- app_assoc. split; [reflexivity|]. split; [assumption|].
      apply Forall_app. split; [assumption|]. now constructor.
Qed.

(** The keys the loop leaves in the node. *)
Lemma forProperties_keys (self : value -> option string -> value -> outcome idv)
    schema sep formData :
  forall names acc members,
    forProperties self schema sep formData names acc = Done members ->
    NoDup (map fst acc) -> idAfterIndices (map fst acc) ->
    NoDup (map fst members) /\ idAfterIndices (map fst members) /\
    forall k, In k (map fst members) <-> In k (map fst acc) \/ In k names.
Proof.
  induction names as [|name rest IH]; intros acc members; cbn [forProperties].
  - intros [= <-] Hnd Hshape. repeat split; try assumption; [tauto|].
    intros [H|[]]. exact H.
  - destruct (toStringId _); [discriminate|].
    destruct (self _ _ _) as [child| |]; cbn [bind]; try discriminate.
    intros Hrest Hnd Hshape.
    destruct (IH _ _ Hrest) as (Hnd' & Hshape' & Hin').
    + now apply setField_NoDup.
    + now apply setField_idAfterIndices.
    + repeat split; try assumption.
      * intros Hk. apply Hin' in Hk as [Hk|Hk]; [|right; now right].
        apply setField_keys in Hk as [->|Hk]; [right; now left|now left].
      * intros [Hk|[<-|Hk]]; apply Hin'.
        -- left. apply setField_keys. now right.
        -- left. apply setField_keys. now left.
        -- now right.
Qed.

Lemma ownKeys_spec (fs : list (string * idv)) :
  NoDup (map fst fs) -> idAfterIndices (map fst fs) ->
  NoDup (ownKeys fs) /\ idAfterIndices (ownKeys fs) /\
  forall k, In k (ownKeys fs) <-> In k (map fst fs) /\ k <> "__proto__".
Proof.
  intros Hnd (indices & others & Hkeys & Hindices & Hothers). unfold ownKeys.
  split; [now apply NoDup_filter|]. split.
  - rewrite Hkeys, filter_app. cbn [filter].
    change (negb (String.eqb ID_KEY "__proto__")) with true. cbv iota.
    eexists _, _. split; [reflexivity|].
    split; apply Forall_forall; intros k Hk; apply filter_In in Hk as [Hk _];
      [rewrite Forall_forall in Hindices; now apply Hindices
      |rewrite Forall_forall in Hothers; now apply Hothers].
  - intros k. rewrite filter_In, negb_true_iff. split; intros [Hin Hk]; split;
      try assumption.
    + intros ->. now rewrite String.eqb_refl in Hk.
    + now apply String.eqb_neq.
Qed.

Section Members.

Context {Validator : Type}.
Variable retrieveSchema :
  Validator -> value -> value -> value -> option MergeAllOf -> thrown + value.
Variable getSchemaType : value -> value.

Local Notation "'build'" := (toIdSchemaInternal retrieveSchema getSchemaType).

(** A build that returns is the build of the node where reference and
    [items] handling ends. *)
Lemma build_landing fuel :
  forall validator schema idPrefix sep id rootSchema formData rl merge t,
    build fuel validator schema idPrefix sep id rootSchema formData rl merge = Done t ->
    exists node rl' budget,
      lands retrieveSchema fuel validator schema rootSchema formData rl merge
        = Done (node, rl') /\
      budget < fuel /\
      ((isObjectWithProperties getSchemaType node = false /\
        t = IdObj (single id idPrefix)) \/
       (isObjectWithProperties getSchemaType node = true /\
        exists members,
          forProperties
            (fun field fieldId data =>
               build budget validator field idPrefix sep fieldId rootSchema data rl' merge)
            node sep formData (forInKeys (getProp node PROPERTIES_KEY))
            (single id idPrefix) = Done members /\
          t = IdObj members)).
Proof.
  induction fuel as [|fuel IH]; intros validator schema idPrefix sep id rootSchema formData
    rl merge t; [discriminate|].
  rewrite lands_step, build_step.
  destruct (typeofObject schema) eqn:Hobj.
  2:{ intros [= <-]. exists schema, rl, 0. repeat split; [lia|]. left. split; [|reflexivity].
      unfold isObjectWithProperties. destruct schema; try discriminate Hobj;
        apply andb_false_r. }
  assert (Hnode :
    match retrieved retrieveSchema validator schema rootSchema formData rl merge with
    | inl e => Throws e
    | inr (Some _schema) =>
        build fuel validator _schema idPrefix sep id rootSchema formData
          (concat rl _schema) merge
    | inr None =>
        nodeAsIs getSchemaType
          (fun field fieldId data =>
             build fuel validator field idPrefix sep fieldId rootSchema data rl merge)
          schema sep id formData (single id idPrefix)
    end = Done t ->
    exists node rl' budget,
      match retrieved retrieveSchema validator schema rootSchema formData rl merge with
      | inl e => Throws e
      | inr (Some _schema) =>
          lands retrieveSchema fuel validator _schema rootSchema formData
            (concat rl _schema) merge
      | inr None =>
          if delegatesToItems schema then
            lands retrieveSchema fuel validator (get schema [ITEMS_KEY]) rootSchema
              formData rl merge
          else Done (schema, rl)
      end = Done (node, rl') /\
      budget < S fuel /\
      ((isObjectWithProperties getSchemaType node = false /\
        t = IdObj (single id idPrefix)) \/
       (isObjectWithProperties getSchemaType node = true /\
        exists members,
          forProperties
            (fun field fieldId data =>
               build budget validator field idPrefix sep fieldId rootSchema data rl' merge)
            node sep formData (forInKeys (getProp node PROPERTIES_KEY))
            (single id idPrefix) = Done members /\
          t = IdObj members))).
  { destruct (retrieved retrieveSchema validator schema rootSchema formData rl merge)
      as [e|[next|]]; [discriminate| |].
    - intros Hbuild. destruct (IH _ _ _ _ _ _ _ _ _ _ Hbuild)
        as (node & rl' & budget & Hlands & Hlt & Hcase).
      exists node, rl', budget. repeat split; [assumption|lia|assumption].
    - unfold nodeAsIs. destruct (delegatesToItems schema).
      + intros Hbuild. destruct (IH _ _ _ _ _ _ _ _ _ _ Hbuild)
          as (node & rl' & budget & Hlands & Hlt & Hcase).
        exists node, rl', budget. repeat split; [assumption|lia|assumption].
      + destruct (isObjectWithProperties getSchemaType schema) eqn:Hprops.
        * destruct (forProperties _ _ _ _ _ _) as [members| |] eqn:Hloop; cbn [bind];
            try discriminate.
          intros [= <-]. exists schema, rl, fuel. repeat split; [lia|].
          right. split; [assumption|]. exists members. split; [assumption|reflexivity].
        * intros [= <-]. exists schema, rl, fuel. repeat split; [lia|]. left. now split. }
  destruct schema; try discriminate Hobj; try exact Hnode. discriminate.
Qed.

End Members.

(** X7: the own keys of the node the builder returns are pairwise distinct
    and are exactly [$id] and, when reference and [items] handling ends on an
    object with properties, the property names that node declares,
    [__proto__] apart; they are enumerated with the array indices first, then
    [$id], then the names that are no array index. *)
Theorem returned_keys :
  forall (Validator : Type)
         (retrieveSchema : Validator -> value -> value -> value -> option MergeAllOf ->
                           thrown + value)
         (getSchemaType : value -> value)
         fuel validator schema idPrefix idSeparator id rootSchema formData rl merge members,
    toIdSchemaInternal retrieveSchema getSchemaType fuel validator schema idPrefix
      idSeparator id rootSchema formData rl merge = Done (IdObj members) ->
    exists node rl',
      lands retrieveSchema fuel validator schema rootSchema formData rl merge
        = Done (node, rl') /\
      NoDup (ownKeys members) /\
      idAfterIndices (ownKeys members) /\
      forall k, In k (ownKeys members) <->
                k = ID_KEY \/
                (isObjectWithProperties getSchemaType node = true /\
                 In k (forInKeys (getProp node PROPERTIES_KEY)) /\ k <> "__proto__").
Proof.
  intros Validator retrieveSchema getSchemaType fuel validator schema idPrefix idSeparator id
    rootSchema formData rl merge members Hbuild.
  assert (Hsingle : NoDup (map fst (single id idPrefix)) /\
                    idAfterIndices (map fst (single id idPrefix))).
  { split; [repeat constructor; intros []|]. exists [], []. repeat split; constructor. }
  destruct Hsingle as [Hnd0 Hshape0].
  destruct (build_landing retrieveSchema getSchemaType fuel _ _ _ _ _ _ _ _ _ _ Hbuild)
    as (node & rl' & budget & Hlands & _ & [[Hleaf [= ->]]|[Hobj (ms & Hloop & [= ->])]]).
  - exists node, rl'. split; [assumption|].
    destruct (ownKeys_spec _ Hnd0 Hshape0) as (Hnd & Hshape & Hin).
    repeat split; try assumption.
    + intros Hk. apply Hin in Hk as [[<-|[]] _]. now left.
    + intros [->|[Hobj _]]; [|congruence]. apply Hin. split; [now left|discriminate].
  - exists node, rl'. split; [assumption|].
    destruct (forProperties_keys _ _ _ _ _ _ _ Hloop Hnd0 Hshape0) as (Hnd1 & Hshape1 & Hin1).
    destruct (ownKeys_spec _ Hnd1 Hshape1) as (Hnd & Hshape & Hin).
    repeat split; try assumption.
    + intros Hk. apply Hin in Hk as [Hk Hp]. apply Hin1 in Hk as [[<-|[]]|Hk];
        [now left|right; now repeat split].
    + intros [->|(_ & Hk & Hp)]; apply Hin.
      * split; [|discriminate]. apply Hin1. left. now left.
      * split; [|assumption]. apply Hin1. now right.
Qed.

Lemma returned_keys_witness :
  exists node rl',
    lands Sample.resolver 2 tt Ex2.indexed VUndefined VUndefined [] None
      = Done (node, rl') /\
    NoDup (ownKeys [("1", IdObj [("$id", IdStr "root_1")]);
                    ("$id", IdStr "root");
                    ("b", IdObj [("$id", IdStr "root_b")])]) /\
    idAfterIndices (ownKeys [("1", IdObj [("$id", IdStr "root_1")]);
                             ("$id", IdStr "root");
                             ("b", IdObj [("$id", IdStr "root_b")])]) /\
    forall k, In k (ownKeys [("1", IdObj [("$id", IdStr "root_1")]);
                             ("$id", IdStr "root");
                             ("b", IdObj [("$id", IdStr "root_b")])]) <->
              k = ID_KEY \/
              (isObjectWithProperties Sample.classifier node = true /\
               In k (forInKeys (getProp node PROPERTIES_KEY)) /\ k <> "__proto__").
Proof.
  apply (returned_keys unit Sample.resolver Sample.classifier 2 tt Ex2.indexed "root" "_"
           None VUndefined VUndefined [] None
           [("1", IdObj [("$id", IdStr "root_1")]);
            ("$id", IdStr "root");
            ("b", IdObj [("$id", IdStr "root_b")])]).
  reflexivity.
Defined.

(** ** The recursion list *)

Lemma fresh_app rl y :
  fresh rl = true -> existsb (fun item => deepEquals item y) rl = false ->
  fresh (rl ++ [y]) = true.
Proof.
  induction rl as [|x rest IH]; cbn [fresh existsb app]; [reflexivity|].
  intros Hfresh Hnew. apply andb_true_iff in Hfresh as [Hx Hrest].
  apply orb_false_iff in Hnew as [Hxy Hnew].
  rewrite forallb_app, Hx, (IH Hrest Hnew). cbn [forallb]. now rewrite Hxy.
Qed.

Section RecursionList.

Context {Validator : Type}.
Variable retrieveSchema :
  Validator -> value -> value -> value -> option MergeAllOf -> thrown + value.

Lemma lands_list fuel :
  forall validator schema rootSchema formData rl merge node rl',
    lands retrieveSchema fuel validator schema rootSchema formData rl merge
      = Done (node, rl') ->
    (exists added, rl' = (rl ++ added)%list) /\
    ((forall s formData' s',
        retrieveSchema validator s rootSchema formData' merge = inr s' ->
        isArray s' = false) ->
     fresh rl = true -> fresh rl' = true).
Proof.
  induction fuel as [|fuel IH]; intros validator schema rootSchema formData rl merge node rl';
    [discriminate|].
  rewrite lands_step.
  assert (Hhere : Done (schema, rl) = Done (node, rl') ->
                  (exists added, rl' = (rl ++ added)%list) /\
                  ((forall s formData' s',
                      retrieveSchema validator s rootSchema formData' merge = inr s' ->
                      isArray s' = false) ->
                   fresh rl = true -> fresh rl' = true)).
  { intros [= <- <-]. split; [exists []; now rewrite app_nil_r|auto]. }
  destruct (typeofObject schema); [|exact Hhere].
  assert (Hnode :
    match retrieved retrieveSchema validator schema rootSchema formData rl merge with
    | inl e => Throws e
    | inr (Some _schema) =>
        lands retrieveSchema fuel validator _schema rootSchema formData
          (concat rl _schema) merge
    | inr None =>
        if delegatesToItems schema then
          lands retrieveSchema fuel validator (get schema [ITEMS_KEY]) rootSchema
            formData rl merge
        else Done (schema, rl)
    end = Done (node, rl') ->
    (exists added, rl' = (rl ++ added)%list) /\
    ((forall s formData' s',
        retrieveSchema validator s rootSchema formData' merge = inr s' ->
        isArray s' = false) ->
     fresh rl = true -> fresh rl' = true)).
  { destruct (retrieved retrieveSchema validator schema rootSchema formData rl merge)
      as [e|[next|]] eqn:Hret; [discriminate| |].
    - intros Hlands. destruct (IH _ _ _ _ _ _ _ _ Hlands) as [[added ->] Hfresh].
      unfold retrieved in Hret. destruct (_ || _); [|discriminate].
      destruct (retrieveSchema validator schema rootSchema formData merge) as [e|s']
        eqn:Hnext; [discriminate|].
      destruct (existsb _ _) eqn:Hnew; [discriminate|]. injection Hret as ->.
      split.
      + unfold concat. destruct next; rewrite <- app_assoc; eauto.
      + intros Hobjects Hrl. apply Hfresh; [assumption|].
        specialize (Hobjects _ _ _ Hnext).
        assert (Hconcat : concat rl next = (rl ++ [next])%list)
          by (destruct next; try reflexivity; discriminate).
        rewrite Hconcat. now apply fresh_app.
    - destruct (delegatesToItems schema); [apply IH|exact Hhere]. }
  destruct schema; try exact Hnode; try exact Hhere. discriminate.
Qed.

End RecursionList.

(** X8: when the resolver returns objects, the recursion list only grows at
    its end along the retrievals, and it never comes to hold an entry that is
    structurally equal to an earlier one. *)
Theorem recursion_list_grows_fresh :
  forall (Validator : Type)
         (retrieveSchema : Validator -> value -> value -> value -> option MergeAllOf ->
                           thrown + value)
         fuel validator schema rootSchema formData rl merge node rl',
    (forall s formData' s',
       retrieveSchema validator s rootSchema formData' merge = inr s' ->
       isArray s' = false) ->
    fresh rl = true ->
    lands retrieveSchema fuel validator schema rootSchema formData rl merge
      = Done (node, rl') ->
    (exists added, rl' = (rl ++ added)%list) /\ fresh rl' = true.
Proof.
  intros Validator retrieveSchema fuel validator schema rootSchema formData rl merge node rl'
    Hobjects Hfresh Hlands.
  destruct (lands_list retrieveSchema fuel _ _ _ _ _ _ _ _ Hlands) as [Hgrows Hkeeps].
  split; [exact Hgrows|now apply Hkeeps].
Qed.

Lemma recursion_list_grows_fresh_witness :
  (exists added, [Ex.selfRef] = ([] ++ added)%list) /\ fresh [Ex.selfRef] = true.
Proof.
  apply (recursion_list_grows_fresh unit (Ex2.always Ex.selfRef) 3 tt Ex.selfRef VUndefined
           VUndefined [] None Ex.selfRef [Ex.selfRef]).
  - intros s formData' s' [= <-]. reflexivity.
  - reflexivity.
  - reflexivity.
Defined.

(** * The option lists of the widgets *)

(** ** The select *)

Lemma mapSelectOptions_entries sameObject enumDisabled :
  forall l index options,
    mapSelectOptions sameObject enumDisabled l index = Done options ->
    map optValue options = map indexName (seq index (length l)) /\
    map optKey options = map (fun i => Some (indexName i)) (seq index (length l)) /\
    map optLabel options = map (fun element => getProp element "label") l /\
    map optDisabled options =
    map (fun element =>
           Some (itemDisabled sameObject enumDisabled (getProp element "value"))) l.
Proof.
  induction l as [|element rest IH]; intros index options; cbn [mapSelectOptions].
  - intros [= <-]. repeat split.
  - destruct (nullish element); [discriminate|].
    destruct (mapSelectOptions _ _ rest (S index)) as [others| |] eqn:Hrest; cbn [bind];
      try discriminate.
    intros [= <-]. destruct (IH _ _ Hrest) as (Hvalues & Hkeys & Hlabels & Hdisabled).
    cbn [map length seq optValue optKey optLabel optDisabled].
    now rewrite Hvalues, Hkeys, Hlabels, Hdisabled.
Qed.

Lemma mapSelectOptions_returns sameObject enumDisabled :
  forall l index,
    existsb nullish l = false ->
    exists options, mapSelectOptions sameObject enumDisabled l index = Done options.
Proof.
  induction l as [|element rest IH]; intros index; cbn [mapSelectOptions existsb]; [eauto|].
  intros Hnone. apply orb_false_iff in Hnone as [Helement Hrest].
  rewrite Helement. destruct (IH (S index) Hrest) as [others ->]. cbn [bind]. eauto.
Qed.

(** X9: for an array of [enumOptions] without [null] or [undefined]
    elements, [SelectWidget] hands the select one option per element, in
    order, whose value and key are the decimal position of the element and
    whose label is the label of the element, after the placeholder option of
    value [''] when it is shown; the values are pairwise distinct, so that a
    chosen value names one position, and never the placeholder. *)
Theorem select_options_index_the_enum :
  forall sameObject l enumDisabled placeholder showPlaceholder,
    existsb nullish l = false ->
    exists options,
      selectOptions sameObject (VArr l) enumDisabled placeholder showPlaceholder
        = Done (Some options) /\
      map optValue options =
        ((if showPlaceholder then [""] else []) ++ map indexName (seq 0 (length l)))%list /\
      map optLabel options =
        ((if showPlaceholder then [VStr (orPrefix placeholder "")] else [])
           ++ map (fun element => getProp element "label") l)%list /\
      NoDup (map optValue options).
Proof.
  intros sameObject l enumDisabled placeholder showPlaceholder Hnone.
  destruct (mapSelectOptions_returns sameObject enumDisabled l 0 Hnone) as [options Hmap].
  destruct (mapSelectOptions_entries _ _ _ _ _ Hmap) as (Hvalues & _ & Hlabels & _).
  unfold selectOptions. rewrite Hmap. cbn [bind]. eexists. split; [reflexivity|].
  destruct showPlaceholder; cbn [map app optValue optLabel]; rewrite Hvalues, Hlabels;
    repeat split.
  - constructor; [|apply indexNames_distinct].
    rewrite in_map_iff. intros (i & Hname & _). now apply indexName_nonempty in Hname.
  - apply indexNames_distinct.
Qed.

Lemma select_options_index_the_enum_witness :
  exists options,
    selectOptions (fun _ _ => false)
      (VArr [VObj [("value", VStr "a"); ("label", VStr "A")];
             VObj [("value", VStr "b"); ("label", VStr "B")]])
      (VArr [VStr "b"]) None true = Done (Some options) /\
    map optValue options = ["" ; "0"; "1"] /\
    map optLabel options = [VStr ""; VStr "A"; VStr "B"] /\
    NoDup (map optValue options).
Proof.
  apply (select_options_index_the_enum (fun _ _ => false)
           [VObj [("value", VStr "a"); ("label", VStr "A")];
            VObj [("value", VStr "b"); ("label", VStr "B")]]
           (VArr [VStr "b"]) None true).
  reflexivity.
Defined.

(** ** Disabled options *)

Lemma arrayIndexOf_found sameObject x :
  forall l from,
    (0 <= from)%Z ->
    negb (Z.eqb (arrayIndexOf sameObject l x from) (-1))
    = existsb (fun y => strictEquals sameObject y x) l.
Proof.
  induction l as [|y rest IH]; intros from Hfrom; cbn [arrayIndexOf existsb]; [reflexivity|].
  destruct (strictEquals sameObject y x); cbn [orb].
  - destruct (Z.eqb_spec from (-1)); [lia|reflexivity].
  - apply IH. lia.
Qed.

(** X11: both widgets disable the option of an element of [enumOptions]
    exactly when [enumDisabled] is an array one of whose elements is
    strictly equal ([===]) to the value of the element; with an
    [enumDisabled] that is not an array no option is disabled by it. *)
Theorem disabled_by_strict_membership :
  forall sameObject enumDisabled optionValue,
    itemDisabled sameObject enumDisabled optionValue = true <->
    exists l y, enumDisabled = VArr l /\ In y l /\ strictEquals sameObject y optionValue = true.
Proof.
  intros sameObject enumDisabled optionValue. unfold itemDisabled. split.
  - destruct enumDisabled as [| | | | |l|]; try discriminate.
    rewrite arrayIndexOf_found by lia. rewrite existsb_exists.
    intros (y & Hin & Hequal). eauto.
  - intros (l & y & -> & Hin & Hequal). rewrite arrayIndexOf_found by lia.
    apply existsb_exists. eauto.
Qed.

(** ** The radios *)

Lemma mapRadios_select sameObject optionId id enumDisabled disabled readonly :
  forall l index entries,
    mapRadios sameObject optionId id enumDisabled disabled readonly l index = Done entries ->
    exists options,
      mapSelectOptions sameObject enumDisabled l index = Done options /\
      map radioValue entries = map optValue options /\
      map radioLabel entries = map optLabel options /\
      map (fun entry => Some (indexName (radioKey entry))) entries = map optKey options /\
      map radioId entries = map (optionId id) (seq index (length l)) /\
      map radioDisabled entries =
      map (fun option =>
             disabled || match optDisabled option with Some b => b | None => false end
             || readonly) options.
Proof.
  induction l as [|element rest IH]; intros index entries;
    cbn [mapRadios mapSelectOptions].
  - intros [= <-]. exists []. repeat split.
  - destruct (nullish element); [discriminate|].
    destruct (mapRadios _ _ _ _ _ _ rest (S index)) as [others| |] eqn:Hrest; cbn [bind];
      try discriminate.
    intros [= <-].
    destruct (IH _ _ Hrest) as (options & -> & Hvalues & Hlabels & Hkeys & Hids & Hdisabled).
    cbn [bind]. eexists. split; [reflexivity|].
    cbn [map length seq radioValue radioLabel radioKey radioId radioDisabled
         optValue optLabel optKey optDisabled].
    now rewrite Hvalues, Hlabels, Hkeys, Hids, Hdisabled.
Qed.

(** X12: the radios that [RadioWidget] renders for [enumOptions] carry the
    values, the labels and the keys of the options that [SelectWidget]
    builds for the same [enumOptions] without placeholder, in the same
    order; a radio is disabled when the widget is disabled or read-only, or
    when the select disables its option. *)
Theorem radios_agree_with_select :
  forall sameObject optionId id enumOptions enumDisabled disabled readonly entries,
    radios sameObject optionId id enumOptions enumDisabled disabled readonly
      = Done (Some entries) ->
    exists options,
      selectOptions sameObject enumOptions enumDisabled None false = Done (Some options) /\
      map radioValue entries = map optValue options /\
      map radioLabel entries = map optLabel options /\
      map (fun entry => Some (indexName (radioKey entry))) entries = map optKey options /\
      map radioDisabled entries =
      map (fun option =>
             disabled || match optDisabled option with Some b => b | None => false end
             || readonly) options.
Proof.
  intros sameObject optionId id enumOptions enumDisabled disabled readonly entries.
  unfold radios, selectOptions. destruct enumOptions as [| | | | |l|]; try discriminate.
  destruct (mapRadios _ _ _ _ _ _ l 0) as [mapped| |] eqn:Hmap; cbn [bind]; try discriminate.
  intros [= <-].
  destruct (mapRadios_select _ _ _ _ _ _ _ _ _ Hmap)
    as (options & -> & Hvalues & Hlabels & Hkeys & _ & Hdisabled).
  cbn [bind]. eauto 6.
Qed.

Lemma radios_agree_with_select_witness :
  exists options,
    selectOptions (fun _ _ => false)
      (VArr [VObj [("value", VStr "a"); ("label", VStr "A")];
             VObj [("value", VStr "b"); ("label", VStr "B")]])
      (VArr [VStr "b"]) None false = Done (Some options) /\
    map radioValue
      [ {| radioName := "root"; radioId := "root-0"; radioLabel := VStr "A";
           radioValue := "0"; radioKey := 0; radioDisabled := false |};
        {| radioName := "root"; radioId := "root-1"; radioLabel := VStr "B";
           radioValue := "1"; radioKey := 1; radioDisabled := true |} ]
    = map optValue options /\
    map radioLabel
      [ {| radioName := "root"; radioId := "root-0"; radioLabel := VStr "A";
           radioValue := "0"; radioKey := 0; radioDisabled := false |};
        {| radioName := "root"; radioId := "root-1"; radioLabel := VStr "B";
           radioValue := "1"; radioKey := 1; radioDisabled := true |} ]
    = map optLabel options /\
    map (fun entry => Some (indexName (radioKey entry)))
      [ {| radioName := "root"; radioId := "root-0"; radioLabel := VStr "A";
           radioValue := "0"; radioKey := 0; radioDisabled := false |};
        {| radioName := "root"; radioId := "root-1"; radioLabel := VStr "B";
           radioValue := "1"; radioKey := 1; radioDisabled := true |} ]
    = map optKey options /\
    map radioDisabled
      [ {| radioName := "root"; radioId := "root-0"; radioLabel := VStr "A";
           radioValue := "0"; radioKey := 0; radioDisabled := false |};
        {| radioName := "root"; radioId := "root-1"; radioLabel := VStr "B";
           radioValue := "1"; radioKey := 1; radioDisabled := true |} ]
    = map (fun option =>
             false || match optDisabled option with Some b => b | None => false end
             || false) options.
Proof.
  apply (radios_agree_with_select (fun _ _ => false)
           (fun id index => id ++ "-" ++ indexName index) "root"
           (VArr [VObj [("value", VStr "a"); ("label", VStr "A")];
                  VObj [("value", VStr "b"); ("label", VStr "B")]])
           (VArr [VStr "b"]) false false).
  reflexivity.
Defined.

(** ** The filter of the select *)

Lemma prefix_append s1 : forall s2, prefix s1 s2 = true <-> exists post, s2 = s1 ++ post.
Proof.
  induction s1 as [|a s1 IH]; intros s2; destruct s2 as [|b s2]; cbn [prefix append].
  - split; [intros _; now exists "" | reflexivity].
  - split; [intros _; now exists (String b s2) | reflexivity].
  - split; [discriminate | intros [post Hpost]; discriminate Hpost].
  - destruct (ascii_dec a b) as [<-|Hab].
    + rewrite IH. split; intros [post Hpost]; exists post; congruence.
    + split; [discriminate | intros [post [= Hb _]]; now symmetry in Hb].
Qed.

Lemma index_infix s1 : forall s2,
  index 0 s1 s2 <> None <-> exists pre post, s2 = pre ++ s1 ++ post.
Proof.
  induction s2 as [|b s2 IH]; cbn [index].
  - destruct s1 as [|a s1].
    + split; [intros _; now exists "", "" | discriminate].
    + split; [congruence|]. intros (pre & post & Hpre).
      destruct pre; discriminate Hpre.
  - destruct (prefix s1 (String b s2)) eqn:Hprefix.
    + split; [intros _ | discriminate].
      apply prefix_append in Hprefix as [post Hpost]. now exists "", post.
    + split.
      * destruct (index 0 s1 s2) as [n|] eqn:Hindex; [intros _ | congruence].
        destruct IH as [IH _]. destruct (IH ltac:(discriminate)) as (pre & post & ->).
        now exists (String b pre), post.
      * intros (pre & post & Hpre). destruct pre as [|c pre]; cbn [append] in Hpre.
        -- assert (prefix s1 (String b s2) = true) as Htrue
             by (apply prefix_append; now exists post).
           congruence.
        -- injection Hpre as _ ->. destruct IH as [_ IH].
           destruct (index 0 s1 (pre ++ s1 ++ post)); [discriminate|].
           exfalso. apply IH; eauto.
Qed.

(** X13: the filter of [SelectWidget] keeps an option exactly when the
    option is present, its label is a string, and the lower-cased input
    occurs in the lower-cased label; an option whose label is not a string
    is never kept. *)
Theorem filter_keeps_infix_matches :
  forall toLowerCase input option,
    filterOption toLowerCase input option = true <->
    exists entry label pre post,
      option = Some entry /\ optLabel entry = VStr label /\
      toLowerCase label = pre ++ toLowerCase input ++ post.
Proof.
  intros toLowerCase input option. unfold filterOption, stringIndexOf. split.
  - destruct option as [entry|]; [|discriminate].
    destruct (optLabel entry) as [| | | |label| |] eqn:Hlabel; try discriminate.
    destruct (index 0 (toLowerCase input) (toLowerCase label)) as [n|] eqn:Hindex;
      [intros _ | discriminate].
    destruct (index_infix (toLowerCase input) (toLowerCase label)) as [Hinfix _].
    destruct Hinfix as (pre & post & Hpre); [congruence|]. now exists entry, label, pre, post.
  - intros (entry & label & pre & post & -> & -> & Hpre).
    destruct (index_infix (toLowerCase input) (toLowerCase label)) as [_ Hinfix].
    destruct (index 0 (toLowerCase input) (toLowerCase label)) as [n|].
    + apply Z.leb_le. lia.
    + exfalso. apply Hinfix; eauto.
Qed.
